(** * process_downloads.py: matching and per-unit pipeline

    A shallow embedding of [src/process_downloads.py].  The script scans one
    directory for [<base>_tags.json] sidecars, pairs each with an audio file
    and an optional cover, and drives each unit through conversion, tagging,
    cover embedding and cleanup.

    Modelling conventions.
    - The script works inside one directory.  A [Path] is modelled by its
      final component (a [string]); [directory / name] is [name].  Entries
      are files; sub-directories and links are left out.
    - [suffix], [stem] and [with_suffix] follow [pathlib]: the last dot
      splits a name only when it is neither its first nor its last
      character.
    - The file system, the encoder and the tag library are the script's
      collaborators.  The file system is a finite map from names to
      contents, with the names that cannot be removed and those that cannot
      be written; every call the script makes to a collaborator is
      recorded, in order, in the [trace] of the world, so that "not
      attempted" and "not invoked" are statements about the trace.
    - The encoder is a function of the input's content: [transcode] is
      the output of a run that exits with status 0; for a run that fails,
      [leftover] is what it leaves at the output path, if it got as far
      as creating it, and [ffmpeg_stderr] the bytes it printed on its
      error output, which line 84 decodes.
    - The tag library keeps the frames of a file in a dictionary indexed
      by the frame's hash key, so that adding a frame replaces the one
      with the same key.  Whether a frame's constructor accepts a JSON
      value is left to [frame_accepts], and the text it then holds to
      [frame_text].  [save] writes the container or raises; it leaves out
      a text frame whose text is empty.  The container of a file lists the
      frames the library writes back at the next [save]: an empty text
      frame in a file does not survive a save and is not listed.
    - Python exceptions are values of [exn]; functions of the script run in
      a state-and-exception monad [M].  JSON numbers are integers.
    - [print] calls are not modelled. *)

From stdpp Require Import gmap strings list fin_maps.
From Stdlib Require Import ZArith Ascii.

#[local] Set Warnings "-register-all".
#[local] Open Scope Z_scope.

(** ** Strings and [pathlib] names *)

(** [str.lower] on the ASCII range (the only comparison made on a lowered
    string is with the ASCII literal [".mp3"]). *)
Definition lower_ascii (c : ascii) : ascii :=
  let n := nat_of_ascii c in
  if (Nat.leb 65 n && Nat.leb n 90)%bool then ascii_of_nat (n + 32) else c.

Fixpoint lower (s : string) : string :=
  match s with
  | EmptyString => EmptyString
  | String c s' => String (lower_ascii c) (lower s')
  end.

(** [s.endswith(suf)]: some tail of [s] is [suf]. *)
Fixpoint ends_with (suf s : string) : bool :=
  String.eqb s suf ||
  match s with
  | EmptyString => false
  | String _ s' => ends_with suf s'
  end.

(** [s.replace(old, new)] for a non-empty [old]: occurrences are replaced
    from the left and do not overlap.  [skip] counts the characters of a
    matched occurrence that are still to be dropped. *)
Fixpoint replace_from (old new : string) (skip : nat) (s : string) : string :=
  match s with
  | EmptyString => EmptyString
  | String c s' =>
      match skip with
      | S k => replace_from old new k s'
      | O =>
          if String.prefix old s
          then new +:+ replace_from old new (Nat.pred (String.length old)) s'
          else String c (replace_from old new 0 s')
      end
  end.

Definition replace (old new s : string) : string := replace_from old new 0 s.

(** [i = name.rfind('.')] given as the pair [(name[:i], name[i:])]; [None]
    when the name has no dot. *)
Fixpoint rpartition_dot (name : string) : option (string * string) :=
  match name with
  | EmptyString => None
  | String c rest =>
      match rpartition_dot rest with
      | Some (pre, suf) => Some (String c pre, suf)
      | None => if Ascii.eqb c "."%char then Some (EmptyString, name) else None
      end
  end.

(** [PurePath.suffix] and [PurePath.stem]: the split is taken only when
    [0 < i < len(name) - 1]. *)
Definition split_ext (name : string) : string * string :=
  match rpartition_dot name with
  | Some (pre, suf) =>
      if (negb (String.eqb pre "") && Nat.ltb 1 (String.length suf))%bool
      then (pre, suf) else (name, "")
  | None => (name, "")
  end.

Definition suffix (name : string) : string := snd (split_ext name).
Definition stem (name : string) : string := fst (split_ext name).

(** [PurePath.with_suffix(new)] for a well-formed [new]; [None] is the
    [ValueError] raised for an empty name. *)
Definition with_suffix (name new : string) : option string :=
  if String.eqb name "" then None
  else
    let old := suffix name in
    if String.eqb old "" then Some (name +:+ new)
    else Some (String.substring 0 (String.length name - String.length old)%nat name +:+ new).

(** [bytes.decode()]: whether the bytes are well-formed UTF-8 (no overlong
    form, no surrogate, nothing above U+10FFFF).  [pending] continuation
    bytes are still due, the next of them within [lo..hi]. *)
Fixpoint decodes_from (pending lo hi : nat) (s : string) : bool :=
  match s with
  | EmptyString => Nat.eqb pending 0
  | String c rest =>
      let n := nat_of_ascii c in
      match pending with
      | O =>
          if Nat.ltb n 128 then decodes_from 0 128 191 rest
          else if (Nat.leb 194 n && Nat.leb n 223)%bool then decodes_from 1 128 191 rest
          else if Nat.eqb n 224 then decodes_from 2 160 191 rest
          else if Nat.eqb n 237 then decodes_from 2 128 159 rest
          else if (Nat.leb 225 n && Nat.leb n 239)%bool then decodes_from 2 128 191 rest
          else if Nat.eqb n 240 then decodes_from 3 144 191 rest
          else if Nat.eqb n 244 then decodes_from 3 128 143 rest
          else if (Nat.leb 241 n && Nat.leb n 243)%bool then decodes_from 3 128 191 rest
          else false
      | S k => (Nat.leb lo n && Nat.leb n hi)%bool && decodes_from k 128 191 rest
      end
  end.

Definition utf8_decodes (bytes : string) : bool := decodes_from 0 128 191 bytes.

(** ** JSON values and file contents *)

Inductive json :=
| JNull
| JBool (b : bool)
| JNum (n : Z)
| JStr (s : string)
| JArr (items : list json)
| JObj (members : list (string * json)).

(** Python truthiness of a decoded JSON value. *)
Definition truthy (v : json) : bool :=
  match v with
  | JNull => false
  | JBool b => b
  | JNum n => negb (n =? 0)
  | JStr s => negb (String.eqb s "")
  | JArr items => match items with [] => false | _ => true end
  | JObj members => match members with [] => false | _ => true end
  end.

(** The first binding of [k] in an association list. *)
Fixpoint assoc (k : string) (members : list (string * json)) : option json :=
  match members with
  | [] => None
  | (k', v) :: rest => if String.eqb k k' then Some v else assoc k rest
  end.

(** What a file holds.  A tagged audio file carries an ID3 container, a
    dictionary of frames indexed by the frame's hash key, as in the tag
    library; the picture frame holds the bytes of the cover file, which are
    the cover's content.  The frames listed are those the library writes
    back when it saves the file. *)
Inductive Content :=
| Opaque (bytes : string)
| JsonText (v : json)
| Mpeg (stream : string) (id3 : option (gmap string Frame))
with Frame :=
| TextFrame (id : string) (encoding : Z) (text : list string)
| COMM (encoding : Z) (lang desc : string) (text : list string)
| APIC (encoding : Z) (mime : string) (type : Z) (desc : string) (data : Content).

Abbreviation ID3 := (gmap string Frame).

(** [Frame.HashKey]: the frame id, extended by the description (and the
    language) for the frames that may occur more than once. *)
Definition HashKey (f : Frame) : string :=
  match f with
  | TextFrame id _ _ => id
  | COMM _ lang desc _ => "COMM:" +:+ desc +:+ ":" +:+ lang
  | APIC _ _ _ desc _ => "APIC:" +:+ desc
  end.

(** A frame that [save] leaves out: a text frame whose text, joined, is
    the empty string.  [COMM] and [APIC] are not text frames. *)
Definition blank (f : Frame) : bool :=
  match f with
  | TextFrame _ _ [] => true
  | TextFrame _ _ [s] => String.eqb s ""
  | _ => false
  end.

(** The container in memory: under a key, a frame that [save] writes, or
    [None] for one that it leaves out. *)
Abbreviation Loaded := (gmap string (option Frame)).

(** [ID3.add(frame)]: the frame replaces the one stored under its key. *)
Definition id3_add (f : Frame) (tags : Loaded) : Loaded :=
  <[HashKey f := if blank f then None else Some f]> tags.

(** The frames [save] writes. *)
Definition written (tags : Loaded) : ID3 := omap id tags.

(** ** The world *)

Inductive exn :=
| FileNotFoundError
| PermissionError
| JSONDecodeError
| KeyError
| TypeError
| AttributeError
| ValueError
| IndexError
| HeaderNotFoundError
| UnicodeDecodeError
| CalledProcessError (stderr : string)
| SystemExit (code : Z).

(** [except Exception] catches everything but [SystemExit]. *)
Definition is_Exception (e : exn) : bool :=
  match e with SystemExit _ => false | _ => true end.

Inductive Event :=
| EvExists (p : string)
| EvOpen (p : string)
| EvUnlink (p : string)
| EvRun (cmd : list string)
| EvLoad (p : string)
| EvSave (p : string).

Inductive DirKind := Absent | NotADirectory | Directory.

Record World := mkWorld {
  target : DirKind;             (* what the directory argument resolves to *)
  files : gmap string Content;  (* the entries of the directory *)
  undeletable : gset string;    (* names whose removal is refused *)
  unwritable : gset string;     (* names that cannot be written *)
  trace : list Event            (* calls made so far, oldest first *)
}.

Definition set_files (fs : gmap string Content) (w : World) : World :=
  mkWorld (target w) fs (undeletable w) (unwritable w) (trace w).

Definition emit (e : Event) (w : World) : World :=
  mkWorld (target w) (files w) (undeletable w) (unwritable w) (trace w ++ [e]).

(** The encoder and the tag library's frame constructors are black boxes. *)
Class Collaborators := {
  ffmpeg_installed : bool;
  (* the MP3 file the encoder writes for an input, [None] when it exits
     with a non-zero status *)
  transcode : Content -> option Content;
  (* what a run that fails on an input leaves at the output path, [None]
     when it gives up before it creates the file *)
  leftover : Content -> option Content;
  (* the bytes a failing run prints on its error output, given the command
     line, what the input holds, and whether the output can be written *)
  ffmpeg_stderr : list string -> option Content -> bool -> string;
  (* whether the constructor of the frame [id] accepts a value as text *)
  frame_accepts : string -> json -> bool;
  (* the text the frame [id] holds for a value it accepts *)
  frame_text : string -> json -> string
}.

(** ** The monad of the script *)

Inductive Res (A : Type) :=
| Val (a : A)
| Exc (e : exn).
Arguments Val {A} a.
Arguments Exc {A} e.

Definition M (A : Type) : Type := World -> Res A * World.

Definition ret {A} (a : A) : M A := fun w => (Val a, w).
Definition raise {A} (e : exn) : M A := fun w => (Exc e, w).
Definition bind {A B} (m : M A) (k : A -> M B) : M B :=
  fun w => match m w with
           | (Val a, w') => k a w'
           | (Exc e, w') => (Exc e, w')
           end.
(** [try: m except <classes>: h] *)
Definition try_except {A} (m : M A) (catches : exn -> bool) (h : exn -> M A) : M A :=
  fun w => match m w with
           | (Exc e, w') => if catches e then h e w' else (Exc e, w')
           | r => r
           end.

Declare Scope script_scope.
Delimit Scope script_scope with script.
Notation "x <- m ;; k" := (bind m (fun x => k))
  (at level 100, m at next level, right associativity) : script_scope.
Notation "m ;; k" := (bind m (fun _ => k))
  (at level 100, right associativity) : script_scope.
#[local] Open Scope script_scope.

Definition call (e : Event) : M unit := fun w => (Val tt, emit e w).

(** ** File-system and library calls *)

Definition present (fs : gmap string Content) (p : string) : bool :=
  match fs !! p with Some _ => true | None => false end.

(** [Path.exists()] *)
Definition path_exists (p : string) : M bool :=
  call (EvExists p);;
  fun w => (Val (present (files w) p), w).

(** [Path.unlink()] *)
Definition unlink (p : string) : M unit :=
  call (EvUnlink p);;
  fun w => match files w !! p with
           | None => (Exc FileNotFoundError, w)
           | Some _ =>
               if bool_decide (p ∈ undeletable w) then (Exc PermissionError, w)
               else (Val tt, set_files (delete p (files w)) w)
           end.

(** [open(p).read()] *)
Definition read_file (p : string) : M Content :=
  call (EvOpen p);;
  fun w => match files w !! p with
           | None => (Exc FileNotFoundError, w)
           | Some c => (Val c, w)
           end.

(** [json.load] on what was read. *)
Definition json_load (c : Content) : M json :=
  match c with
  | JsonText v => ret v
  | _ => raise JSONDecodeError
  end.

(** [v[0]] *)
Definition getitem0 (v : json) : M json :=
  match v with
  | JArr (x :: _) => ret x
  | JArr [] => raise IndexError
  | JStr (String c _) => ret (JStr (String c EmptyString))
  | JStr EmptyString => raise IndexError
  | JObj _ => raise KeyError
  | _ => raise TypeError
  end.

(** [d.get(key)] *)
Definition dict_get (d : json) (key : string) : M json :=
  match d with
  | JObj members => ret (default JNull (assoc key members))
  | _ => raise AttributeError
  end.

(** The object returned by [MP3(filename)]. *)
Record MP3 := mkMP3 {
  filename : string;
  audio_stream : string;
  tags : option ID3
}.

Definition MP3_open (p : string) : M MP3 :=
  call (EvLoad p);;
  fun w => match files w !! p with
           | Some (Mpeg s t) => (Val (mkMP3 p s t), w)
           | Some _ => (Exc HeaderNotFoundError, w)
           | None => (Exc FileNotFoundError, w)
           end.

(** [if audio.tags is None: audio.add_tags()] leaves a container, which
    holds the frames read from the file. *)
Definition ensure_tags (audio : MP3) : Loaded := Some <$> default ∅ (tags audio).

(** [audio.save()] with the container [t]: the frames are written, but for
    the text frames whose text is empty. *)
Definition MP3_save (audio : MP3) (t : Loaded) : M unit :=
  call (EvSave (filename audio));;
  fun w => if bool_decide (filename audio ∈ unwritable w) then (Exc PermissionError, w)
           else (Val tt, set_files (<[filename audio := Mpeg (audio_stream audio) (Some (written t))]>
                                      (files w)) w).

(** [bytes.decode()] *)
Definition bytes_decode (bytes : string) : M unit :=
  if utf8_decodes bytes then ret tt else raise UnicodeDecodeError.

Record Triplet := mkTriplet {
  audio : string;
  tags_json : string;      (* triplet["tags"] *)
  cover : option string
}.

Definition audio_exts : list string := [".m4a"; ".mp4"; ".mp3"; ".flac"].
Definition cover_exts : list string := [".jpeg"; ".jpg"; ".png"; ".webp"].

Definition ffmpeg_cmd (input output : string) : list string :=
  ["ffmpeg"; "-i"; input; "-codec:a"; "libmp3lame"; "-q:a"; "0"; "-y"; output].

Section Script.
Context `{Collab : Collaborators}.

(** [subprocess.run(cmd, stderr=PIPE, check=True)] for the encoder's
    command line.  What the encoder writes, the output of a run that
    succeeds or what a failing run leaves, is written over whatever
    [output] held ([-y]); a run that fails raises with the captured
    error output. *)
Definition run_ffmpeg (input output : string) : M unit :=
  call (EvRun (ffmpeg_cmd input output));;
  fun w =>
    if negb ffmpeg_installed then (Exc FileNotFoundError, w)
    else
      let writable := negb (bool_decide (output ∈ unwritable w)) in
      let failed :=
        CalledProcessError
          (ffmpeg_stderr (ffmpeg_cmd input output) (files w !! input) writable) in
      match files w !! input with
      | None => (Exc failed, w)
      | Some c =>
          match transcode c with
          | Some out =>
              if writable then (Val tt, set_files (<[output := out]> (files w)) w)
              else (Exc failed, w)
          | None =>
              match leftover c with
              | Some part =>
                  if writable then (Exc failed, set_files (<[output := part]> (files w)) w)
                  else (Exc failed, w)
              | None => (Exc failed, w)
              end
          end
      end.

(** The [for ext in [...]: ... break] loops of [find_triplets]. *)
Fixpoint first_existing (candidates : list string) : M (option string) :=
  match candidates with
  | [] => ret None
  | candidate :: rest =>
      found <- path_exists candidate;;
      if found then ret (Some candidate) else first_existing rest
  end.

(** Line 20. *)
Definition base_name_of (json_file : string) : string :=
  replace "_tags" "" (stem json_file).

Definition audio_candidates (base_name : string) : list string :=
  map (fun ext => base_name +:+ ext) audio_exts.
Definition cover_candidates (base_name : string) : list string :=
  map (fun ext => base_name +:+ "_cover" +:+ ext) cover_exts.

(** Lines 19-51, the loop over the sidecars. *)
Fixpoint scan (json_files : list string) : M (list Triplet) :=
  match json_files with
  | [] => ret []
  | json_file :: rest =>
      let base_name := base_name_of json_file in
      audio_file <- first_existing (audio_candidates base_name);;
      match audio_file with
      | None => scan rest
      | Some a =>
          cover_file <- first_existing (cover_candidates base_name);;
          triplets <- scan rest;;
          ret (mkTriplet a json_file cover_file :: triplets)
      end
  end.

(** [directory.glob("*_tags.json")], in the order the map lists its keys. *)
Definition glob_tags (w : World) : list string :=
  filter (fun name => Is_true (ends_with "_tags.json" name)) (elements (dom (files w))).

(** Lines 13-53. *)
Definition find_triplets : M (list Triplet) :=
  fun w => scan (glob_tags w) w.

(** Lines 56-88.  The handler of [CalledProcessError] decodes the
    captured error output (line 84) before it returns; an exception
    raised there is not caught by the clause that follows. *)
Definition convert_to_mp3 (input_file output_file : string) : M bool :=
  try_except
    (run_ffmpeg input_file output_file;; ret true)
    (fun e => match e with CalledProcessError _ | FileNotFoundError => true | _ => false end)
    (fun e => match e with
              | CalledProcessError stderr => bytes_decode stderr;; ret false
              | _ => ret false
              end).

(** One [if tags_data.get(key): audio.tags.add(...)] of lines 99-112. *)
Definition add_text (key id : string) (tags_data : json) (t : Loaded) : M Loaded :=
  v <- dict_get tags_data key;;
  if truthy v then
    if frame_accepts id v then ret (id3_add (TextFrame id 3 [frame_text id v]) t)
    else raise ValueError
  else ret t.

(** Lines 114-117. *)
Definition add_comment (tags_data : json) (t : Loaded) : M Loaded :=
  v <- dict_get tags_data "comment";;
  if truthy v then
    if frame_accepts "COMM" v then ret (id3_add (COMM 3 "eng" "" [frame_text "COMM" v]) t)
    else raise ValueError
  else ret t.

(** Lines 91-125. *)
Definition apply_tags (audio_file : string) (tags_data : json) : M bool :=
  try_except
    (audio <- MP3_open audio_file;;
     let t := ensure_tags audio in
     t <- add_text "title" "TIT2" tags_data t;;
     t <- add_text "artist" "TPE1" tags_data t;;
     t <- add_text "album" "TALB" tags_data t;;
     t <- add_text "year" "TDRC" tags_data t;;
     t <- add_text "genre" "TCON" tags_data t;;
     t <- add_comment tags_data t;;
     MP3_save audio t;;
     ret true)
    is_Exception
    (fun _ => ret false).

(** Lines 139-144. *)
Definition mime_of (cover_file : string) : string :=
  let ext := lower (suffix cover_file) in
  if String.eqb ext ".png" then "image/png"
  else if String.eqb ext ".webp" then "image/webp"
  else "image/jpeg".

(** Lines 128-162. *)
Definition embed_cover_art (audio_file cover_file : string) : M bool :=
  try_except
    (audio <- MP3_open audio_file;;
     let t := ensure_tags audio in
     cover_data <- read_file cover_file;;
     let t := id3_add (APIC 3 (mime_of cover_file) 3 "Cover" cover_data) t in
     MP3_save audio t;;
     ret true)
    is_Exception
    (fun _ => ret false).

(** Lines 173-182: the record, or [None] for [return False]. *)
Definition read_metadata (tags_file : string) : M (option json) :=
  try_except
    (content <- read_file tags_file;;
     tags_list <- json_load content;;
     if negb (truthy tags_list) then ret None
     else tags_data <- getitem0 tags_list;; ret (Some tags_data))
    is_Exception
    (fun _ => ret None).

(** Lines 184-191: the path to tag, or [None] for [return False]. *)
Definition normalize (audio_file : string) : M (option string) :=
  if String.eqb (lower (suffix audio_file)) ".mp3" then ret (Some audio_file)
  else
    match with_suffix audio_file ".mp3" with
    | None => raise ValueError
    | Some mp3_file =>
        converted <- convert_to_mp3 audio_file mp3_file;;
        if converted then ret (Some mp3_file) else ret None
    end.

(** Lines 202-211, the body of the [try]. *)
Definition cleanup_body (t : Triplet) (mp3_file : string) : M unit :=
  unlink (tags_json t);;
  match cover t with
  | Some cover_file => unlink cover_file
  | None => ret tt
  end;;
  if negb (String.eqb (audio t) mp3_file) then
    still_there <- path_exists (audio t);;
    if still_there then unlink (audio t) else ret tt
  else ret tt.

(** Lines 200-214. *)
Definition cleanup (t : Triplet) (mp3_file : string) : M unit :=
  try_except (cleanup_body t mp3_file) is_Exception (fun _ => ret tt).

(** Lines 165-217. *)
Definition process_triplet (t : Triplet) : M bool :=
  tags_data <- read_metadata (tags_json t);;
  match tags_data with
  | None => ret false
  | Some tags_data =>
      mp3_file <- normalize (audio t);;
      match mp3_file with
      | None => ret false
      | Some mp3_file =>
          tagged <- apply_tags mp3_file tags_data;;
          if negb tagged then ret false
          else
            match cover t with
            | Some cover_file => embed_cover_art mp3_file cover_file;; ret tt
            | None => ret tt
            end;;
            cleanup t mp3_file;;
            ret true
      end
  end.

(** Lines 261-264. *)
Fixpoint process_all (triplets : list Triplet) (success_count : nat) : M nat :=
  match triplets with
  | [] => ret success_count
  | t :: rest =>
      ok <- process_triplet t;;
      process_all rest (if ok then S success_count else success_count)
  end.

(** Lines 235-268 of [main]: the value is the final tally (successes,
    units), which the script prints. *)
Definition main : M (nat * nat) :=
  fun w =>
    match target w with
    | Absent => raise (SystemExit 1) w
    | NotADirectory => raise (SystemExit 1) w
    | Directory =>
        (triplets <- find_triplets;;
         match triplets with
         | [] => raise (SystemExit 0)
         | _ =>
             success_count <- process_all triplets 0;;
             ret (success_count, length triplets)
         end) w
    end.

(** The exit status of the interpreter for a run of [main]: the code of
    [sys.exit], 0 for a normal return, 1 for an exception that nothing
    catches. *)
Definition exit_status (w : World) : Z :=
  match fst (main w) with
  | Val _ => 0
  | Exc (SystemExit code) => code
  | Exc _ => 1
  end.

End Script.

(** * Vocabulary of the properties *)

(** ** Names *)

Fixpoint last_char (s : string) : option ascii :=
  match s with
  | EmptyString => None
  | String c rest => match rest with EmptyString => Some c | _ => last_char rest end
  end.

(** A plain extension: a dot followed by at least one character, none of
    them a dot. *)
Definition plain_ext (ext : string) : Prop :=
  rpartition_dot ext = Some ("", ext) /\ (1 < String.length ext)%nat.

(** ** Worlds and traces *)

Definition emits (evs : list Event) (w : World) : World :=
  mkWorld (target w) (files w) (undeletable w) (unwritable w) (trace w ++ evs).

(** The names whose removal was attempted, in order. *)
Definition unlinked (evs : list Event) : list string :=
  omap (fun e => match e with EvUnlink p => Some p | _ => None end) evs.



(** [w'] continues [w] with calls that all satisfy [ok]. *)
Definition extends_by (ok : Event -> bool) (w w' : World) : Prop :=
  exists evs, trace w' = trace w ++ evs /\ forallb ok evs = true.

(** Every file of [w] is still there in [w']. *)
Definition keeps_files (w w' : World) : Prop :=
  forall p, is_Some (files w !! p) -> is_Some (files w' !! p).

Definition removable (w : World) (p : string) : bool :=
  present (files w) p && negb (bool_decide (p ∈ undeletable w)).

Definition unlink_error (w : World) (p : string) : exn :=
  if present (files w) p then PermissionError else FileNotFoundError.

(** One removal: whether it went through, and the world it leaves. *)
Definition try_unlink (p : string) (w : World) : bool * World :=
  (removable w p,
   if removable w p then set_files (delete p (files w)) (emits [EvUnlink p] w)
   else emits [EvUnlink p] w).

(** The world the cleanup leaves: removals in order, stopping at the first
    one that is refused. *)
Definition sweep (t : Triplet) (mp3_file : string) (w : World) : World :=
  let (ok1, w1) := try_unlink (tags_json t) w in
  if negb ok1 then w1
  else
    let (ok2, w2) := match cover t with
                     | Some c => try_unlink c w1
                     | None => (true, w1)
                     end in
    if negb ok2 then w2
    else if negb (String.eqb (audio t) mp3_file) then
           let w3 := emits [EvExists (audio t)] w2 in
           if present (files w2) (audio t) then snd (try_unlink (audio t) w3) else w3
         else w2.

(** The removals the cleanup can attempt, in the order of the source. *)
Definition cleanup_order (t : Triplet) : list string :=
  tags_json t :: option_list (cover t) ++ [audio t].

(** ** The matcher as a function of the directory *)

(** The names probed by a first-match loop: up to and including the first
    one that exists. *)
Fixpoint probed (fs : gmap string Content) (candidates : list string) : list string :=
  match candidates with
  | [] => []
  | c :: rest => c :: (if present fs c then [] else probed fs rest)
  end.

Definition unit_for (fs : gmap string Content) (json_file : string) : option Triplet :=
  let base_name := base_name_of json_file in
  match List.find (present fs) (audio_candidates base_name) with
  | None => None
  | Some a => Some (mkTriplet a json_file (List.find (present fs) (cover_candidates base_name)))
  end.

Definition unit_probes (fs : gmap string Content) (json_file : string) : list string :=
  let base_name := base_name_of json_file in
  probed fs (audio_candidates base_name) ++
  match List.find (present fs) (audio_candidates base_name) with
  | None => []
  | Some _ => probed fs (cover_candidates base_name)
  end.

(** ** The stages as functions of the world *)

Definition record_of (c : option Content) : option json :=
  match c with
  | Some (JsonText v) =>
      if truthy v then
        match v with
        | JArr (x :: _) => Some x
        | JStr (String c _) => Some (JStr (String c EmptyString))
        | _ => None
        end
      else None
  | _ => None
  end.

(** What adding a frame makes of the container that the next [save]
    writes: the frame takes the place of the one with its key, and when it
    is left out by [save] the key is gone. *)
Definition put (f : Frame) (t : ID3) : ID3 :=
  if blank f then delete (HashKey f) t else <[HashKey f := f]> t.

Definition add_all (fs : list Frame) (t : ID3) : ID3 :=
  foldl (fun t f => put f t) t fs.

Definition field (d : json) (key : string) : json :=
  match d with
  | JObj members => default JNull (assoc key members)
  | _ => JNull
  end.

Definition is_dict (d : json) : bool :=
  match d with JObj _ => true | _ => false end.

Definition failure_of (d : json) : exn :=
  if is_dict d then ValueError else AttributeError.

Definition cover_frame (cover_file : string) (data : Content) : Frame :=
  APIC 3 (mime_of cover_file) 3 "Cover" data.

(** The five text fields with their frame ids. *)
Definition text_fields : list (string * string) :=
  [("title", "TIT2"); ("artist", "TPE1"); ("album", "TALB"); ("year", "TDRC"); ("genre", "TCON")].

Definition comment_key : string := "COMM::eng".

(** What is left of the directory when every removal of the cleanup goes
    through: sidecar, then cover, then the original when it is not the
    tagged file and still exists. *)
Definition swept (t : Triplet) (mp3_file : string) (fs : gmap string Content)
  : gmap string Content :=
  let fs1 := delete (tags_json t) fs in
  let fs2 := match cover t with Some c => delete c fs1 | None => fs1 end in
  if negb (String.eqb (audio t) mp3_file) && present fs2 (audio t)
  then delete (audio t) fs2 else fs2.

(** The world the cleanup starts from. *)
Definition after_embed (t : Triplet) (mp3_file : string) (w : World) : World :=
  match cover t with
  | Some cover_file => snd (embed_cover_art mp3_file cover_file w)
  | None => w
  end.

Section Specification.
Context `{Collab : Collaborators}.

(** What the encoder writes, when the run succeeds. *)
Definition encoded (w : World) (input output : string) : option Content :=
  if ffmpeg_installed then
    match files w !! input with
    | Some c =>
        match transcode c with
        | Some out => if bool_decide (output ∈ unwritable w) then None else Some out
        | None => None
        end
    | None => None
    end
  else None.

(** What a run of the encoder that fails leaves of the directory: the
    output path holds what the encoder left there, if anything. *)
Definition spoiled (w : World) (input output : string) : gmap string Content :=
  if ffmpeg_installed && negb (bool_decide (output ∈ unwritable w)) then
    match files w !! input with
    | Some c =>
        match transcode c, leftover c with
        | None, Some part => <[output := part]> (files w)
        | _, _ => files w
        end
    | None => files w
    end
  else files w.

(** Whether the handler of a failed run gets to [return False]: the
    encoder is missing, or its error output decodes. *)
Definition failure_reported (w : World) (input output : string) : bool :=
  negb ffmpeg_installed ||
  utf8_decodes (ffmpeg_stderr (ffmpeg_cmd input output) (files w !! input)
                  (negb (bool_decide (output ∈ unwritable w)))).

(** The frames one field contributes; [None] when building them raises. *)
Definition field_frames (mk : string -> Frame) (key id : string) (d : json)
  : option (list Frame) :=
  if is_dict d then
    if truthy (field d key) then
      if frame_accepts id (field d key) then Some [mk (frame_text id (field d key))]
      else None
    else Some []
  else None.

Definition frames_for (d : json) : option (list Frame) :=
  f1 ← field_frames (fun s => TextFrame "TIT2" 3 [s]) "title" "TIT2" d;
  f2 ← field_frames (fun s => TextFrame "TPE1" 3 [s]) "artist" "TPE1" d;
  f3 ← field_frames (fun s => TextFrame "TALB" 3 [s]) "album" "TALB" d;
  f4 ← field_frames (fun s => TextFrame "TDRC" 3 [s]) "year" "TDRC" d;
  f5 ← field_frames (fun s => TextFrame "TCON" 3 [s]) "genre" "TCON" d;
  f6 ← field_frames (fun s => COMM 3 "eng" "" [s]) "comment" "COMM" d;
  Some (f1 ++ f2 ++ f3 ++ f4 ++ f5 ++ f6)%list.

(** Reading, normalization and tagging all succeed. *)
Definition stages_succeed (t : Triplet) (w : World) : Prop :=
  exists d w1 p w2 w3,
    read_metadata (tags_json t) w = (Val (Some d), w1) /\
    normalize (audio t) w1 = (Val (Some p), w2) /\
    apply_tags p d w2 = (Val true, w3).


End Specification.

(** ** Sample collaborators and directories *)

(** The text of a time stamp, as the tag library renders it: the text is
    split at [-], [T], [:], [/], [.] and at runs of white space, the
    pieces are read as year, month, day, hour, minute and second up to the
    first that is not a number, and what was read is printed back. *)
Definition is_sep (c : ascii) : bool :=
  existsb (Ascii.eqb c) ["-"; "T"; ":"; "/"; "."]%char.

Definition is_space (c : ascii) : bool :=
  let n := nat_of_ascii c in ((Nat.leb 9 n && Nat.leb n 13) || Nat.eqb n 32)%bool.

Fixpoint stamp_pieces (s cur : string) (in_space : bool) : list string :=
  match s with
  | EmptyString => [cur]
  | String c rest =>
      if is_sep c then cur :: stamp_pieces rest "" false
      else if is_space c then
             if in_space then stamp_pieces rest cur true
             else cur :: stamp_pieces rest "" true
           else stamp_pieces rest (cur +:+ String c "") false
  end.

Fixpoint digits_value (s : string) (acc : N) : option N :=
  match s with
  | EmptyString => Some acc
  | String c rest =>
      let n := nat_of_ascii c in
      if (Nat.leb 48 n && Nat.leb n 57)%bool
      then digits_value rest (acc * 10 + N.of_nat (n - 48))%N
      else None
  end.

Definition int_of (s : string) : option N :=
  if String.eqb s "" then None else digits_value s 0.

Fixpoint decimal_from (fuel : nat) (n : N) (acc : string) : string :=
  match fuel with
  | O => acc
  | S k =>
      let acc' := String (ascii_of_nat (48 + N.to_nat (n mod 10)%N)) acc in
      if (n / 10 =? 0)%N then acc' else decimal_from k (n / 10)%N acc'
  end.

Fixpoint zeros (k : nat) : string :=
  match k with O => "" | S k' => String "0"%char (zeros k') end.

(** ['%0<width>d' % n] *)
Definition padded (width : nat) (n : N) : string :=
  let d := decimal_from (S (N.to_nat (N.log2 n))) n "" in
  zeros (width - String.length d) +:+ d.

Fixpoint stamp_text (pieces : list string) (formats : list (string * nat)) : string :=
  match pieces, formats with
  | piece :: pieces', (sep, width) :: formats' =>
      match int_of piece with
      | Some n => sep +:+ padded width n +:+ stamp_text pieces' formats'
      | None => ""
      end
  | _, _ => ""
  end.

Definition time_stamp (s : string) : string :=
  stamp_text (stamp_pieces s "" false)
    [("", 4); ("-", 2); ("-", 2); (" ", 2); (":", 2); (":", 2)]%nat.

(** An encoder that turns plain audio bytes into an untagged MP3 stream and
    refuses anything else with a plain message, and a tag library that
    takes strings as text and renders a year as a time stamp. *)
Definition studio : Collaborators :=
  {| ffmpeg_installed := true;
     transcode := fun c => match c with
                           | Opaque bytes => Some (Mpeg bytes None)
                           | Mpeg stream _ => Some (Mpeg stream None)
                           | JsonText _ => None
                           end;
     leftover := fun _ => None;
     ffmpeg_stderr := fun _ _ _ => "Conversion failed!";
     frame_accepts := fun _ v => match v with JStr _ => true | _ => false end;
     frame_text := fun id v =>
                     match v with
                     | JStr s => if String.eqb id "TDRC" then time_stamp s else s
                     | _ => ""
                     end |}.

(** An encoder that refuses every input after it has created the output,
    with a message in ASCII. *)
Definition brittle : Collaborators :=
  {| ffmpeg_installed := true;
     transcode := fun _ => None;
     leftover := fun _ => Some (Opaque "");
     ffmpeg_stderr := fun _ _ _ => "Conversion failed!";
     frame_accepts := frame_accepts (Collaborators := studio);
     frame_text := frame_text (Collaborators := studio) |}.

(** An encoder that refuses every input and whose error output starts with
    the byte 0xFF, which no UTF-8 text contains. *)
Definition garbler : Collaborators :=
  {| ffmpeg_installed := true;
     transcode := fun _ => None;
     leftover := fun _ => None;
     ffmpeg_stderr := fun _ _ _ => String (ascii_of_nat 255) ": Invalid data found";
     frame_accepts := frame_accepts (Collaborators := studio);
     frame_text := frame_text (Collaborators := studio) |}.

Definition record_AB : json := JObj [("title", JStr "A"); ("artist", JStr "B")].

Definition directory_of (entries : list (string * Content)) : World :=
  mkWorld Directory (list_to_map entries) ∅ ∅ [].

(** An MP3 with its sidecar; the cover named by the unit is not there. *)
Definition lost_cover : World :=
  directory_of [("song_tags.json", JsonText (JArr [record_AB])); ("song.mp3", Mpeg "mp3" None)].
Definition lost_cover_unit : Triplet :=
  mkTriplet "song.mp3" "song_tags.json" (Some "song_cover.png").

(** A sidecar that decodes to the empty array. *)
Definition empty_sidecar : World :=
  directory_of [("song_tags.json", JsonText (JArr [])); ("song.flac", Opaque "flac");
                ("song_cover.png", Opaque "png")].
Definition song_unit : Triplet :=
  mkTriplet "song.flac" "song_tags.json" (Some "song_cover.png").

(** The spec's end-to-end directory, with a sidecar that cannot be removed. *)
Definition locked_sidecar : World :=
  mkWorld Directory
    (list_to_map [("song_tags.json", JsonText (JArr [record_AB])); ("song.flac", Opaque "flac");
                  ("song_cover.png", Opaque "png")])
    {["song_tags.json"]} ∅ [].

(** The same directory with a cover that cannot be removed. *)
Definition locked_cover : World :=
  mkWorld Directory
    (list_to_map [("song_tags.json", JsonText (JArr [record_AB])); ("song.flac", Opaque "flac");
                  ("song_cover.png", Opaque "png")])
    {["song_cover.png"]} ∅ [].

(** The spec's end-to-end directory. *)
Definition album : World :=
  directory_of [("song_tags.json", JsonText (JArr [record_AB])); ("song.flac", Opaque "flac");
                ("song_cover.png", Opaque "png")].

(** The worlds [song_unit] goes through, from [w], up to the cleanup. *)
Definition song_read (w : World) : World :=
  snd (read_metadata (tags_json song_unit) w).
Definition song_converted (w : World) : World :=
  snd (normalize (Collab := studio) (audio song_unit) (song_read w)).
Definition song_tagged (w : World) : World :=
  snd (apply_tags (Collab := studio) "song.mp3" record_AB (song_converted w)).
Definition before_cleanup (w : World) : World :=
  after_embed song_unit "song.mp3" (song_tagged w).

Section Unqualified.
Context `{Collab : Collaborators}.

(** The cleanup read without a proviso: once tagging has succeeded, the
    sidecar, the cover and the converted original are gone. *)
Definition cleanup_removes_all (t : Triplet) (w : World) : Prop :=
  forall d w1 p w2 w3,
    read_metadata (tags_json t) w = (Val (Some d), w1) ->
    normalize (audio t) w1 = (Val (Some p), w2) ->
    apply_tags p d w2 = (Val true, w3) ->
    files (snd (process_triplet t w)) = swept t p (files (after_embed t p w3)).
End Unqualified.

(** Two sidecars whose names differ only in a repeated [_tags]. *)
Definition twins : World :=
  directory_of [("a_tags.json", JsonText (JArr [record_AB]));
                ("a_tags_tags.json", JsonText (JArr [record_AB]));
                ("a.mp3", Mpeg "mp3" None)].

(** Both an [.m4a] and an [.mp3] for one base name. *)
Definition both_formats : World :=
  directory_of [("song_tags.json", JsonText (JArr [record_AB]));
                ("song.m4a", Opaque "m4a"); ("song.mp3", Mpeg "old" None)].

(** A record whose year is no time stamp. *)
Definition record_soon : json := JObj [("title", JStr "A"); ("year", JStr "soon")].

Section AsClaimed.
Context `{Collab : Collaborators}.

(** The tag set read without a proviso: after a successful application
    the file has a frame for each field of the record that is present
    and non-empty. *)
Definition one_frame_per_field (p : string) (d : json) (w : World) : Prop :=
  fst (apply_tags p d w) = Val true ->
  forall key id, (key, id) ∈ text_fields -> truthy (field d key) = true ->
    exists s t' f,
      files (snd (apply_tags p d w)) !! p = Some (Mpeg s (Some t')) /\
      t' !! id = Some f.
End AsClaimed.

(** An MP3 that already carries a title frame. *)
Definition tagged_once : World :=
  directory_of [("song.mp3", Mpeg "mp3" (Some {["TIT2" := TextFrame "TIT2" 3 ["old"]]}))].

(** A directory argument that does not exist, and a directory without
    sidecars. *)
Definition nowhere : World := mkWorld Absent ∅ ∅ ∅ [].
Definition no_sidecars : World := directory_of [("song.flac", Opaque "flac")].

(** A sidecar with an empty base name, next to [.m4a] and [.mp3]. *)
Definition hidden_files : World :=
  directory_of [("_tags.json", JsonText (JArr [record_AB]));
                (".m4a", Opaque "m4a"); (".mp3", Mpeg "old" None)].

Section Overwriting.
Context `{Collab : Collaborators}.

(** The overwriting of a sibling MP3 read for every base name: the unit
    is the [.m4a] (or [.mp4]) file and its conversion is written to
    [<base>.mp3]. *)
Definition converts_onto_sibling_mp3 (w : World) : Prop :=
  forall ts w' t,
    find_triplets w = (Val ts, w') -> t ∈ ts ->
    let b := base_name_of (tags_json t) in
    present (files w) (b +:+ ".m4a") = true \/ present (files w) (b +:+ ".mp4") = true ->
    present (files w) (b +:+ ".mp3") = true ->
    (audio t = b +:+ ".m4a" \/ audio t = b +:+ ".mp4") /\
    with_suffix (audio t) ".mp3" = Some (b +:+ ".mp3").
End Overwriting.

(** ** Vocabulary of the further properties *)

(** [_tags] does not occur in [s]. *)
Fixpoint no_tags (s : string) : bool :=
  match s with
  | EmptyString => true
  | String _ rest => negb (String.prefix "_tags" s) && no_tags rest
  end.

(** The six fields of a record with the argument [apply_tags] hands to the
    tag library's validation. *)
Definition all_fields : list (string * string) :=
  text_fields ++ [("comment", "COMM")].

(** The tag library takes the record: it is an object and each of its
    present, non-empty fields is accepted. *)
Definition record_accepted `{Collab : Collaborators} (d : json) : bool :=
  is_dict d &&
  forallb (fun kv => implb (truthy (field d kv.1)) (frame_accepts kv.2 (field d kv.1)))
          all_fields.

(** The MIME type [embed_cover_art] gives a cover matched with [ext]. *)
Definition mime_for_ext (ext : string) : string :=
  if String.eqb ext ".png" then "image/png"
  else if String.eqb ext ".webp" then "image/webp"
  else "image/jpeg".

Definition any_event (e : Event) : bool := true.

(** A record the sample tag library rejects: a number where text belongs. *)
Definition record_bad_year : json := JObj [("title", JStr "A"); ("year", JNum 2024)].

(** A sidecar holding a string, a directory with an unreadable audio, and
    an MP3 with a cover already embedded. *)
Definition string_sidecar : World :=
  directory_of [("song_tags.json", JsonText (JStr "abc")); ("song.flac", Opaque "flac")].
Definition bad_year : World :=
  directory_of [("song_tags.json", JsonText (JArr [record_bad_year]));
                ("song.flac", Opaque "flac"); ("song_cover.png", Opaque "png");
                ("other.txt", Opaque "notes")].
Definition with_cover : World :=
  directory_of [("song.mp3", Mpeg "mp3" (Some {["APIC:Cover" := APIC 3 "image/jpeg" 3 "Cover" (Opaque "old")]}));
                ("song_cover.png", Opaque "png")].

(** A batch whose first unit fails: a sidecar that decodes to nothing next
    to a good unit. *)
Definition mixed_batch : World :=
  directory_of [("bad_tags.json", JsonText (JArr [])); ("bad.mp3", Mpeg "bad" None);
                ("hit_tags.json", JsonText (JArr [record_AB])); ("hit.mp3", Mpeg "hit" None)].

(** * Lemmas *)

(** ** Names *)

Lemma append_nil_l s : "" +:+ s = s.
Proof. reflexivity. Qed.

Lemma append_cons c s1 s2 : String c s1 +:+ s2 = String c (s1 +:+ s2).
Proof. reflexivity. Qed.

Lemma append_nil_r s : s +:+ "" = s.
Proof. induction s as [|c s IH]; [done|]. by rewrite append_cons, IH. Qed.

Lemma append_eq_nil s1 s2 : s1 +:+ s2 = "" -> s1 = "" /\ s2 = "".
Proof. destruct s1; [auto|]. rewrite append_cons. discriminate. Qed.

Lemma length_append s1 s2 :
  String.length (s1 +:+ s2) = (String.length s1 + String.length s2)%nat.
Proof.
  induction s1 as [|c s1 IH]; [done|]. rewrite append_cons. simpl. by rewrite IH.
Qed.

Lemma substring_prefix s1 s2 : String.substring 0 (String.length s1) (s1 +:+ s2) = s1.
Proof.
  induction s1 as [|c s1 IH].
  - rewrite append_nil_l. by destruct s2.
  - rewrite append_cons. simpl. by rewrite IH.
Qed.

Lemma last_char_append s1 s2 : s2 ≠ "" -> last_char (s1 +:+ s2) = last_char s2.
Proof.
  intros Hne. induction s1 as [|c s1 IH]; [done|].
  rewrite append_cons. cbn [last_char]. rewrite IH.
  destruct (s1 +:+ s2) eqn:E; [|done].
  apply append_eq_nil in E as [_ ?]. done.
Qed.

Lemma ends_with_append suf s : ends_with suf s = true -> exists pre, s = pre +:+ suf.
Proof.
  induction s as [|c s IH]; cbn [ends_with]; intros H.
  - apply orb_true_iff in H as [H|H]; [|done].
    apply String.eqb_eq in H. exists "". by subst.
  - apply orb_true_iff in H as [H|H].
    + apply String.eqb_eq in H. exists "". by subst.
    + destruct (IH H) as [pre ->]. by exists (String c pre).
Qed.

Lemma rpartition_dot_join name pre suf :
  rpartition_dot name = Some (pre, suf) -> name = pre +:+ suf.
Proof.
  revert pre suf. induction name as [|c rest IH]; simpl; intros pre suf H; [done|].
  destruct (rpartition_dot rest) as [[p q]|].
  - inversion H; subst. rewrite append_cons. f_equal. by apply IH.
  - destruct (Ascii.eqb c "."); inversion H; by subst.
Qed.

Lemma rpartition_dot_append b s pre suf :
  rpartition_dot s = Some (pre, suf) -> rpartition_dot (b +:+ s) = Some (b +:+ pre, suf).
Proof.
  intros H. induction b as [|c b IH]; [done|].
  rewrite !append_cons. simpl. by rewrite IH.
Qed.

Lemma split_ext_append b ext :
  plain_ext ext ->
  split_ext (b +:+ ext) = if String.eqb b "" then (b +:+ ext, "") else (b, ext).
Proof.
  intros [Hdot Hlen]. unfold split_ext.
  rewrite (rpartition_dot_append b _ _ _ Hdot), append_nil_r.
  destruct (String.eqb_spec b "") as [->|Hb]; simpl; [done|].
  by apply Nat.ltb_lt in Hlen as ->.
Qed.

Lemma suffix_append b ext : plain_ext ext -> b ≠ "" -> suffix (b +:+ ext) = ext.
Proof.
  intros Hext Hb. unfold suffix. rewrite split_ext_append by done.
  by apply String.eqb_neq in Hb as ->.
Qed.

Lemma with_suffix_append b ext new :
  plain_ext ext -> b ≠ "" -> with_suffix (b +:+ ext) new = Some (b +:+ new).
Proof.
  intros Hext Hb. unfold with_suffix.
  destruct (String.eqb_spec (b +:+ ext) "") as [E|_].
  { apply append_eq_nil in E as [? _]. done. }
  rewrite suffix_append by done.
  destruct (String.eqb_spec ext "") as [->|_]; [by destruct Hext as [? _]|].
  rewrite length_append, Nat.add_sub. by rewrite substring_prefix.
Qed.

Lemma split_ext_join name : name = fst (split_ext name) +:+ snd (split_ext name).
Proof.
  unfold split_ext. destruct (rpartition_dot name) as [[pre suf]|] eqn:E; simpl.
  - destruct (_ && _); simpl; [by apply rpartition_dot_join | by rewrite append_nil_r].
  - by rewrite append_nil_r.
Qed.

Lemma plain_mp3 : plain_ext ".mp3".
Proof. split; [reflexivity | simpl; lia]. Qed.

Lemma lower_mp3_neq s : lower s ≠ ".mp3" -> s ≠ ".mp3".
Proof. intros H ->. by apply H. Qed.

(** [with_suffix] on a name that is not yet an MP3: a different name with
    the suffix [.mp3] and the stem of the original. *)
Lemma with_suffix_mp3 name :
  name ≠ "" ->
  exists out, with_suffix name ".mp3" = Some out /\ out = stem name +:+ ".mp3" /\
              suffix out = ".mp3" /\ (suffix name ≠ ".mp3" -> out ≠ name).
Proof.
  intros Hne. unfold with_suffix.
  destruct (String.eqb_spec name "") as [|_]; [done|].
  assert (Hstem : stem name ≠ "").
  { unfold stem, split_ext. destruct (rpartition_dot name) as [[pre suf]|]; simpl; [|done].
    destruct (negb (String.eqb pre "")) eqn:E; simpl; [|done].
    destruct (Nat.ltb 1 (String.length suf)); simpl; [|done].
    apply negb_true_iff, String.eqb_neq in E. done. }
  assert (Hout : (if String.eqb (suffix name) "" then Some (name +:+ ".mp3")
                  else Some (String.substring 0 (String.length name - String.length (suffix name)) name +:+ ".mp3"))
                 = Some (stem name +:+ ".mp3")).
  { pose proof (split_ext_join name) as J. fold (stem name) (suffix name) in J.
    destruct (String.eqb_spec (suffix name) "") as [E|_].
    - rewrite E, append_nil_r in J. by rewrite <- J.
    - rewrite J at 1 3. rewrite length_append, Nat.add_sub, substring_prefix. done. }
  rewrite Hout. eexists; split; [done|]. split; [done|]. split.
  - by apply suffix_append; [apply plain_mp3|].
  - intros Hs E. apply Hs. rewrite <- E at 1. by apply suffix_append; [apply plain_mp3|].
Qed.


(** ** Worlds and traces *)

Lemma result_eq {A} (x : Res A * World) (r : Res A) : fst x = r -> x = (r, snd x).
Proof. destruct x. simpl. by intros ->. Qed.

Ltac fold_world :=
  unfold emit, emits, set_files; simpl; rewrite <- ?app_assoc; simpl.

Lemma emit_emits e w : emit e w = emits [e] w.
Proof. reflexivity. Qed.

Lemma emits_nil w : emits [] w = w.
Proof. destruct w; unfold emits; simpl. by rewrite app_nil_r. Qed.

Lemma emits_emits a b w : emits b (emits a w) = emits (a ++ b) w.
Proof. unfold emits; simpl. by rewrite app_assoc. Qed.

Lemma first_existing_eq candidates w :
  first_existing candidates w =
  (Val (List.find (present (files w)) candidates),
   emits (map EvExists (probed (files w) candidates)) w).
Proof.
  revert w. induction candidates as [|c rest IH]; intros w; simpl.
  - by rewrite emits_nil.
  - unfold bind, path_exists, call; simpl. unfold bind; simpl.
    rewrite emit_emits.
    destruct (present (files w) c) eqn:Hc; simpl; [done|].
    rewrite IH. rewrite emits_emits. simpl. reflexivity.
Qed.

Lemma scan_eq json_files w :
  scan json_files w =
  (Val (omap (unit_for (files w)) json_files),
   emits (map EvExists (concat (map (unit_probes (files w)) json_files))) w).
Proof.
  revert w. induction json_files as [|j rest IH]; intros w.
  - simpl. by rewrite emits_nil.
  - cbn [scan omap list_omap map concat]. unfold bind at 1. rewrite first_existing_eq.
    unfold unit_for at 1, unit_probes at 1.
    destruct (List.find (present (files w)) (audio_candidates (base_name_of j))) as [a|] eqn:Ha.
    + unfold bind. rewrite first_existing_eq. rewrite IH. simpl.
      rewrite !emits_emits. unfold ret. rewrite !map_app, <- !app_assoc. reflexivity.
    + rewrite IH. simpl. rewrite emits_emits, app_nil_r, map_app. reflexivity.
Qed.

Lemma find_triplets_eq w :
  find_triplets w =
  (Val (omap (unit_for (files w)) (glob_tags w)),
   emits (map EvExists (concat (map (unit_probes (files w)) (glob_tags w)))) w).
Proof. apply scan_eq. Qed.


(** ** The stages as functions of the world *)

Lemma read_metadata_eq p w :
  read_metadata p w = (Val (record_of (files w !! p)), emits [EvOpen p] w).
Proof.
  unfold read_metadata, read_file, json_load, getitem0, try_except, call, bind, ret, raise; simpl.
  destruct (files w !! p) as [[b|v|s t]|]; simpl; try reflexivity.
  destruct v as [| [] | n | [|c s] | [|x l] | [|m l]]; simpl; try reflexivity.
  destruct (n =? 0); reflexivity.
Qed.

Lemma add_all_app fs gs t : add_all gs (add_all fs t) = add_all (fs ++ gs) t.
Proof. unfold add_all. by rewrite foldl_app. Qed.

(** What [save] writes after frames were added to the frames of a file. *)
Lemma written_loaded (t : ID3) : written (Some <$> t) = t.
Proof.
  apply map_eq. intros k. unfold written. rewrite lookup_omap, lookup_fmap.
  by destruct (t !! k).
Qed.

Lemma written_add f (m : Loaded) : written (id3_add f m) = put f (written m).
Proof.
  unfold written, id3_add, put. rewrite omap_insert. by destruct (blank f).
Qed.

Lemma written_foldl fs (m : Loaded) :
  written (foldl (fun t f => id3_add f t) m fs) = add_all fs (written m).
Proof.
  revert m. induction fs as [|f fs IH]; intros m; [done|].
  cbn [foldl]. rewrite IH, written_add. reflexivity.
Qed.

Lemma put_cover c data (t : ID3) :
  put (cover_frame c data) t = <["APIC:Cover" := cover_frame c data]> t.
Proof. reflexivity. Qed.

Lemma embed_cover_art_eq p c w :
  embed_cover_art p c w =
  match files w !! p with
  | Some (Mpeg s t) =>
      match files w !! c with
      | Some data =>
          if bool_decide (p ∈ unwritable w)
          then (Val false, emits [EvLoad p; EvOpen c; EvSave p] w)
          else (Val true,
                set_files (<[p := Mpeg s (Some (<["APIC:Cover" := cover_frame c data]>
                                                  (default ∅ t)))]> (files w))
                          (emits [EvLoad p; EvOpen c; EvSave p] w))
      | None => (Val false, emits [EvLoad p; EvOpen c] w)
      end
  | _ => (Val false, emits [EvLoad p] w)
  end.
Proof.
  unfold embed_cover_art, MP3_open, read_file, MP3_save, try_except, call, bind, ret; simpl.
  destruct (files w !! p) as [[b|v|s t]|]; simpl; try reflexivity.
  destruct (files w !! c) as [data|]; simpl; [|by fold_world].
  unfold ensure_tags. simpl.
  change (APIC 3 (mime_of c) 3 "Cover" data) with (cover_frame c data).
  rewrite written_add, written_loaded, put_cover.
  destruct (bool_decide (p ∈ unwritable w)); by fold_world.
Qed.

Lemma unlink_eq p w :
  unlink p w =
  if removable w p
  then (Val tt, set_files (delete p (files w)) (emits [EvUnlink p] w))
  else (Exc (unlink_error w p), emits [EvUnlink p] w).
Proof.
  unfold unlink, removable, unlink_error, present, call, bind; simpl.
  destruct (files w !! p); simpl; [|reflexivity].
  destruct (bool_decide (p ∈ undeletable w)); reflexivity.
Qed.

Lemma is_Exception_unlink_error w p : is_Exception (unlink_error w p) = true.
Proof. unfold unlink_error. by destruct (present _ _). Qed.

Lemma unlink_try p w :
  unlink p w =
  (if fst (try_unlink p w) then Val tt else Exc (unlink_error w p), snd (try_unlink p w)).
Proof. rewrite unlink_eq. unfold try_unlink; simpl. by destruct (removable w p). Qed.

Lemma cleanup_eq t p w : cleanup t p w = (Val tt, sweep t p w).
Proof.
  unfold cleanup, cleanup_body, sweep, try_except, bind.
  rewrite unlink_try. destruct (try_unlink (tags_json t) w) as [[] w1]; simpl;
    [|by rewrite is_Exception_unlink_error].
  assert (Htail : forall w2,
    (let (r, w') := (if negb (String.eqb (audio t) p)
                     then (still_there <- path_exists (audio t);;
                           if still_there then unlink (audio t) else ret tt)
                     else ret tt) w2 in
     match r with
     | Val a => (Val a, w')
     | Exc e => if is_Exception e then ret tt w' else (Exc e, w')
     end) =
    (Val tt,
     if negb (String.eqb (audio t) p)
     then if present (files w2) (audio t)
          then snd (try_unlink (audio t) (emits [EvExists (audio t)] w2))
          else emits [EvExists (audio t)] w2
     else w2)).
  { intros w2. destruct (negb _); [|reflexivity].
    unfold path_exists, call, bind; simpl.
    destruct (present (files w2) (audio t)) eqn:Hp; [|reflexivity].
    rewrite unlink_eq. unfold try_unlink, removable, unlink_error, emit, emits; simpl.
    rewrite Hp; simpl. by destruct (bool_decide _). }
  destruct (cover t) as [c|].
  - rewrite unlink_try. destruct (try_unlink c w1) as [[] w2]; simpl;
      [apply Htail | by rewrite is_Exception_unlink_error].
  - unfold ret at 1. simpl. apply Htail.
Qed.

Lemma cleanup_returns t p w : fst (cleanup t p w) = Val tt.
Proof. by rewrite cleanup_eq. Qed.

Lemma embed_cover_art_returns p c w : exists b, fst (embed_cover_art p c w) = Val b.
Proof.
  rewrite embed_cover_art_eq.
  destruct (files w !! p) as [[| |s t]|]; simpl; eauto.
  destruct (files w !! c); simpl; eauto.
  destruct (bool_decide _); simpl; eauto.
Qed.


Section StageLemmas.
Context `{Collab : Collaborators}.

Lemma convert_to_mp3_eq i o w :
convert_to_mp3 i o w =
match encoded w i o with
| Some out => (Val true, set_files (<[o := out]> (files w)) (emits [EvRun (ffmpeg_cmd i o)] w))
| None => (if failure_reported w i o then Val false else Exc UnicodeDecodeError,
           set_files (spoiled w i o) (emits [EvRun (ffmpeg_cmd i o)] w))
end.
Proof.
unfold convert_to_mp3, run_ffmpeg, encoded, spoiled, failure_reported, bytes_decode,
  try_except, call, bind, ret, raise; simpl.
destruct ffmpeg_installed; simpl; [|reflexivity].
destruct (files w !! i) as [c|]; simpl.
- destruct (transcode c) as [out|]; simpl.
  + destruct (bool_decide (o ∈ unwritable w)); simpl; [|reflexivity].
    by destruct (utf8_decodes _).
  + destruct (leftover c) as [part|]; simpl;
      destruct (bool_decide (o ∈ unwritable w)); simpl; by destruct (utf8_decodes _).
- destruct (bool_decide (o ∈ unwritable w)); simpl; by destruct (utf8_decodes _).
Qed.

Lemma add_text_eq key id d t w :
add_text key id d t w =
(match field_frames (fun s => TextFrame id 3 [s]) key id d with
 | Some fs => Val (foldl (fun t f => id3_add f t) t fs)
 | None => Exc (failure_of d)
 end, w).
Proof.
unfold add_text, dict_get, field_frames, failure_of, bind, ret, raise.
destruct d; simpl; try reflexivity.
destruct (truthy _); simpl; [|reflexivity].
destruct (frame_accepts _ _); reflexivity.
Qed.

Lemma add_comment_eq d t w :
add_comment d t w =
(match field_frames (fun s => COMM 3 "eng" "" [s]) "comment" "COMM" d with
 | Some fs => Val (foldl (fun t f => id3_add f t) t fs)
 | None => Exc (failure_of d)
 end, w).
Proof.
unfold add_comment, dict_get, field_frames, failure_of, bind, ret, raise.
destruct d; simpl; try reflexivity.
destruct (truthy _); simpl; [|reflexivity].
destruct (frame_accepts _ _); reflexivity.
Qed.

Lemma apply_tags_eq p d w :
apply_tags p d w =
match files w !! p with
| Some (Mpeg s t) =>
    match frames_for d with
    | Some fs =>
        if bool_decide (p ∈ unwritable w)
        then (Val false, emits [EvLoad p; EvSave p] w)
        else (Val true,
              set_files (<[p := Mpeg s (Some (add_all fs (default ∅ t)))]> (files w))
                        (emits [EvLoad p; EvSave p] w))
    | None => (Val false, emits [EvLoad p] w)
    end
| _ => (Val false, emits [EvLoad p] w)
end.
Proof.
unfold apply_tags, try_except, MP3_open, call.
unfold bind at 1. unfold bind at 1. simpl.
destruct (files w !! p) as [[b|v|s t]|]; simpl; try reflexivity.
unfold frames_for, ensure_tags. simpl.
repeat (unfold bind at 1; first [rewrite add_text_eq | rewrite add_comment_eq];
        match goal with |- context [field_frames ?mk ?k ?i d] =>
          destruct (field_frames mk k i d) as [?|]; simpl; [|by destruct d] end).
rewrite <- !foldl_app.
unfold MP3_save, call, bind, ret; simpl. fold_world.
rewrite written_foldl, written_loaded.
destruct (bool_decide (p ∈ unwritable w)); reflexivity.
Qed.

Lemma apply_tags_returns p d w : exists b, fst (apply_tags p d w) = Val b.
Proof.
rewrite apply_tags_eq.
destruct (files w !! p) as [[| |s t]|]; simpl; eauto.
destruct (frames_for d); simpl; eauto.
destruct (bool_decide _); simpl; eauto.
Qed.

Lemma process_triplet_eq t w :
process_triplet t w =
match record_of (files w !! tags_json t) with
| None => (Val false, emits [EvOpen (tags_json t)] w)
| Some d =>
    match normalize (audio t) (emits [EvOpen (tags_json t)] w) with
    | (Val (Some p), w2) =>
        match apply_tags p d w2 with
        | (Val true, w3) => (Val true, snd (cleanup t p (after_embed t p w3)))
        | (_, w3) => (Val false, w3)
        end
    | (Val None, w2) => (Val false, w2)
    | (Exc e, w2) => (Exc e, w2)
    end
end.
Proof.
unfold process_triplet. unfold bind at 1. rewrite read_metadata_eq.
destruct (record_of _) as [d|]; [|reflexivity].
unfold bind at 1.
destruct (normalize _ _) as [[[p|]|e] w2]; try reflexivity.
unfold bind at 1.
destruct (apply_tags_returns p d w2) as [b Hb].
destruct (apply_tags p d w2) as [r w3]. simpl in Hb. subst r.
destruct b; simpl; [|reflexivity].
unfold after_embed. unfold bind at 1.
destruct (cover t) as [c|].
- unfold bind at 1.
  destruct (embed_cover_art_returns p c w3) as [b Hb].
  destruct (embed_cover_art p c w3) as [r w4]. simpl in Hb. subst r. simpl.
  unfold bind, ret.
  pose proof (cleanup_returns t p w4) as Hc.
  destruct (cleanup t p w4) as [r w5]. simpl in Hc. by subst r.
- unfold ret at 1. unfold bind, ret.
  pose proof (cleanup_returns t p w3) as Hc.
  destruct (cleanup t p w3) as [r w5]. simpl in Hc. by subst r.
Qed.


End StageLemmas.

(** ** What a stage leaves behind *)

Lemma extends_by_refl ok w : extends_by ok w w.
Proof. exists []. by rewrite app_nil_r. Qed.

Lemma extends_by_trans ok w1 w2 w3 :
  extends_by ok w1 w2 -> extends_by ok w2 w3 -> extends_by ok w1 w3.
Proof.
  intros (e1 & H1 & O1) (e2 & H2 & O2). exists (e1 ++ e2). split.
  - by rewrite H2, H1, app_assoc.
  - by rewrite forallb_app, O1, O2.
Qed.

Lemma extends_by_emits ok evs w : forallb ok evs = true -> extends_by ok w (emits evs w).
Proof. intros H. by exists evs. Qed.

Lemma extends_by_set_files ok fs w w' :
  extends_by ok w w' -> extends_by ok w (set_files fs w').
Proof. intros (evs & H & O). by exists evs. Qed.

Lemma keeps_files_refl w : keeps_files w w.
Proof. by intros p. Qed.


Lemma keeps_files_insert w p c : keeps_files w (set_files (<[p := c]> (files w)) w).
Proof.
  intros q Hq. simpl. destruct (decide (p = q)) as [->|Hne].
  - rewrite lookup_insert_eq. eauto.
  - by rewrite lookup_insert_ne.
Qed.

Lemma keeps_files_same w w' : files w' = files w -> keeps_files w w'.
Proof. intros E p. by rewrite E. Qed.

Section Frames.
Context `{Collab : Collaborators}.

Lemma normalize_eq a w :
  normalize a w =
  if String.eqb (lower (suffix a)) ".mp3" then (Val (Some a), w)
  else match with_suffix a ".mp3" with
       | None => (Exc ValueError, w)
       | Some out =>
           match encoded w a out with
           | Some c => (Val (Some out),
                        set_files (<[out := c]> (files w)) (emits [EvRun (ffmpeg_cmd a out)] w))
           | None => (if failure_reported w a out then Val None else Exc UnicodeDecodeError,
                      set_files (spoiled w a out) (emits [EvRun (ffmpeg_cmd a out)] w))
           end
       end.
Proof.
  unfold normalize. destruct (String.eqb _ _); [reflexivity|].
  destruct (with_suffix a ".mp3") as [out|]; [|reflexivity].
  unfold bind. rewrite convert_to_mp3_eq.
  destruct (encoded w a out); [reflexivity|]. by destruct (failure_reported w a out).
Qed.

Lemma keeps_files_spoiled w i o w' :
  files w' = files w -> keeps_files w (set_files (spoiled w i o) w').
Proof.
  intros E q Hq. simpl. unfold spoiled.
  destruct (_ && _); [|done].
  destruct (files w !! i) as [c|]; [|done].
  destruct (transcode c); [done|]. destruct (leftover c) as [part|]; [|done].
  destruct (decide (o = q)) as [->|Hne].
  - rewrite lookup_insert_eq. eauto.
  - by rewrite lookup_insert_ne.
Qed.

Lemma normalize_frame ok a w :
  (forall cmd, ok (EvRun cmd) = true) ->
  extends_by ok w (snd (normalize a w)) /\ keeps_files w (snd (normalize a w)).
Proof.
  intros Hok. rewrite normalize_eq.
  destruct (String.eqb _ _); simpl; [split; [apply extends_by_refl | apply keeps_files_refl]|].
  destruct (with_suffix a ".mp3") as [out|]; simpl;
    [|split; [apply extends_by_refl | apply keeps_files_refl]].
  destruct (encoded w a out) as [c|]; simpl; split.
  - apply extends_by_set_files, extends_by_emits. simpl. by rewrite Hok.
  - apply (keeps_files_insert w out c).
  - apply extends_by_set_files, extends_by_emits. simpl. by rewrite Hok.
  - by apply keeps_files_spoiled.
Qed.

Lemma apply_tags_frame ok p d w :
  ok (EvLoad p) = true -> ok (EvSave p) = true ->
  extends_by ok w (snd (apply_tags p d w)) /\
  keeps_files w (snd (apply_tags p d w)) /\
  (fst (apply_tags p d w) = Val false -> files (snd (apply_tags p d w)) = files w).
Proof.
  intros Hl Hs. rewrite apply_tags_eq.
  assert (H1 : forallb ok [EvLoad p] = true) by (simpl; by rewrite Hl).
  assert (H2 : forallb ok [EvLoad p; EvSave p] = true) by (simpl; by rewrite Hl, Hs).
  destruct (files w !! p) as [[| |s t]|]; simpl;
    try (split; [by apply extends_by_emits | split; [by apply keeps_files_same | done]]).
  destruct (frames_for d) as [fs|]; simpl;
    try (split; [by apply extends_by_emits | split; [by apply keeps_files_same | done]]).
  destruct (bool_decide _); simpl;
    try (split; [by apply extends_by_emits | split; [by apply keeps_files_same | done]]).
  split; [by apply extends_by_set_files, extends_by_emits|].
  split; [apply (keeps_files_insert w p) | done].
Qed.
End Frames.


Lemma embed_cover_art_frame ok p c w :
  ok (EvLoad p) = true -> ok (EvOpen c) = true -> ok (EvSave p) = true ->
  extends_by ok w (snd (embed_cover_art p c w)) /\ keeps_files w (snd (embed_cover_art p c w)).
Proof.
  intros Hl Ho Hs. rewrite embed_cover_art_eq.
  assert (H1 : forallb ok [EvLoad p] = true) by (simpl; by rewrite Hl).
  assert (H2 : forallb ok [EvLoad p; EvOpen c] = true) by (simpl; by rewrite Hl, Ho).
  assert (H3 : forallb ok [EvLoad p; EvOpen c; EvSave p] = true) by (simpl; by rewrite Hl, Ho, Hs).
  destruct (files w !! p) as [[| |s t]|]; simpl;
    try (split; [by apply extends_by_emits | by apply keeps_files_same]).
  destruct (files w !! c) as [data|]; simpl;
    try (split; [by apply extends_by_emits | by apply keeps_files_same]).
  destruct (bool_decide _); simpl;
    try (split; [by apply extends_by_emits | by apply keeps_files_same]).
  split; [by apply extends_by_set_files, extends_by_emits | apply (keeps_files_insert w p)].
Qed.

(** The cleanup starts by trying to remove the sidecar. *)
Lemma cleanup_starts t p w :
  exists evs, trace (snd (cleanup t p w)) = trace w ++ EvUnlink (tags_json t) :: evs.
Proof.
  rewrite cleanup_eq. unfold sweep, try_unlink; simpl.
  destruct (removable w (tags_json t)); simpl; [|by exists []].
  destruct (cover t) as [c|]; simpl.
  - destruct (removable _ c); simpl; [|rewrite <- app_assoc; simpl; eauto].
    destruct (negb _); simpl; [|rewrite <- app_assoc; simpl; eauto].
    destruct (present _ _); simpl; [|rewrite <- !app_assoc; simpl; eauto].
    destruct (removable _ _); simpl; rewrite <- !app_assoc; simpl; eauto.
  - destruct (negb _); simpl; [|by exists []].
    destruct (present _ _); simpl; [|rewrite <- !app_assoc; simpl; eauto].
    destruct (removable _ _); simpl; rewrite <- !app_assoc; simpl; eauto.
Qed.

(** * The unit pipeline *)

Section PipelineProperties.
Context `{Collab : Collaborators}.

Lemma process_triplet_success t w d w1 p w2 w3 :
  read_metadata (tags_json t) w = (Val (Some d), w1) ->
  normalize (audio t) w1 = (Val (Some p), w2) ->
  apply_tags p d w2 = (Val true, w3) ->
  process_triplet t w = (Val true, snd (cleanup t p (after_embed t p w3))).
Proof.
  intros Hr Hn Ha. rewrite process_triplet_eq.
  rewrite read_metadata_eq in Hr. inversion Hr as [[Hd Hw1]].
  rewrite Hd, Hw1, Hn, Ha. reflexivity.
Qed.

Lemma process_triplet_true t w :
  fst (process_triplet t w) = Val true -> stages_succeed t w.
Proof.
  rewrite process_triplet_eq. intros H.
  destruct (record_of (files w !! tags_json t)) as [d|] eqn:Hd; [|discriminate].
  destruct (normalize (audio t) _) as [[[p|]|e] w2] eqn:Hn; try discriminate.
  destruct (apply_tags p d w2) as [[[]|e] w3] eqn:Ha; try discriminate.
  exists d, (emits [EvOpen (tags_json t)] w), p, w2, w3.
  by rewrite read_metadata_eq, Hd.
Qed.

(** C1. A unit is reported successful exactly when reading the sidecar,
    normalization and tagging all succeed.  When they do, the result is
    [True] and the final world is the one the cleanup leaves, started from
    whatever cover embedding left: neither the value returned by the
    embedding nor an error inside the cleanup enters the result. *)
Theorem process_triplet_success_iff (t : Triplet) (w : World) :
  (fst (process_triplet t w) = Val true <-> stages_succeed t w) /\
  (forall d w1 p w2 w3,
      read_metadata (tags_json t) w = (Val (Some d), w1) ->
      normalize (audio t) w1 = (Val (Some p), w2) ->
      apply_tags p d w2 = (Val true, w3) ->
      process_triplet t w = (Val true, snd (cleanup t p (after_embed t p w3))) /\
      exists evs, trace (snd (process_triplet t w)) =
                  trace (after_embed t p w3) ++ EvUnlink (tags_json t) :: evs).
Proof.
  split.
  - split; [apply process_triplet_true|].
    intros (d & w1 & p & w2 & w3 & Hr & Hn & Ha).
    by rewrite (process_triplet_success _ _ _ _ _ _ _ Hr Hn Ha).
  - intros d w1 p w2 w3 Hr Hn Ha.
    rewrite (process_triplet_success _ _ _ _ _ _ _ Hr Hn Ha). split; [done|].
    simpl. apply cleanup_starts.
Qed.


End PipelineProperties.

Lemma process_triplet_success_iff_witness :
  fst (process_triplet (Collab := studio) lost_cover_unit lost_cover) = Val true /\
  fst (embed_cover_art "song.mp3" "song_cover.png"
         (snd (apply_tags (Collab := studio) "song.mp3" record_AB
                 (emits [EvOpen "song_tags.json"] lost_cover)))) = Val false /\
  unlinked (trace (snd (process_triplet (Collab := studio) lost_cover_unit lost_cover)))
    = ["song_tags.json"; "song_cover.png"].
Proof.
  split; [|split; vm_compute; reflexivity].
  apply (proj1 (process_triplet_success_iff (Collab := studio) lost_cover_unit lost_cover)).
  exists record_AB, (emits [EvOpen "song_tags.json"] lost_cover), "song.mp3",
    (emits [EvOpen "song_tags.json"] lost_cover),
    (snd (apply_tags (Collab := studio) "song.mp3" record_AB
            (emits [EvOpen "song_tags.json"] lost_cover))).
  repeat split; vm_compute; reflexivity.
Defined.


(** * Cleanup *)

Lemma cleanup_body_done t p w :
  fst (cleanup_body t p w) = Val tt -> files (sweep t p w) = swept t p (files w).
Proof.
  unfold cleanup_body, sweep, swept, try_unlink, bind.
  rewrite unlink_eq. destruct (removable w (tags_json t)); simpl; [|discriminate].
  destruct (cover t) as [c|]; simpl.
  - rewrite unlink_eq. destruct (removable _ c); simpl; [|discriminate].
    destruct (negb _); simpl; [|done].
    unfold path_exists, call, bind; simpl.
    destruct (present _ _) eqn:Hp; simpl; [|done].
    rewrite unlink_eq. unfold removable; simpl. rewrite Hp; simpl.
    by destruct (bool_decide _).
  - destruct (negb _); simpl; [|done].
    unfold path_exists, call, bind; simpl.
    destruct (present _ _) eqn:Hp; simpl; [|done].
    rewrite unlink_eq. unfold removable; simpl. rewrite Hp; simpl.
    by destruct (bool_decide _).
Qed.

Lemma unlink_refused q w e :
  fst (unlink q w) = Exc e -> removable w q = false /\ snd (unlink q w) = emits [EvUnlink q] w.
Proof. rewrite unlink_eq. by destruct (removable w q). Qed.

Lemma unlink_done q w :
  fst (unlink q w) = Val tt ->
  removable w q = true /\
  snd (unlink q w) = set_files (delete q (files w)) (emits [EvUnlink q] w).
Proof. rewrite unlink_eq. by destruct (removable w q). Qed.

Lemma sweep_order t p w :
  exists evs k, trace (sweep t p w) = trace w ++ evs /\
                unlinked evs = take k (cleanup_order t).
Proof.
  unfold sweep, try_unlink, cleanup_order; simpl.
  destruct (removable w (tags_json t)); simpl; [|by exists [EvUnlink (tags_json t)], 1%nat].
  destruct (cover t) as [c|]; simpl.
  - destruct (removable _ c); simpl;
      [|rewrite <- app_assoc; by exists [EvUnlink (tags_json t); EvUnlink c], 2%nat].
    destruct (negb _); simpl;
      [|rewrite <- app_assoc; by exists [EvUnlink (tags_json t); EvUnlink c], 2%nat].
    destruct (present _ _); simpl.
    + exists [EvUnlink (tags_json t); EvUnlink c; EvExists (audio t); EvUnlink (audio t)], 3%nat.
      split; [|done]. destruct (removable _ _); simpl; by rewrite <- !app_assoc.
    + exists [EvUnlink (tags_json t); EvUnlink c; EvExists (audio t)], 2%nat.
      split; [|done]. by rewrite <- !app_assoc.
  - destruct (negb _); simpl; [|by exists [EvUnlink (tags_json t)], 1%nat].
    destruct (present _ _); simpl.
    + exists [EvUnlink (tags_json t); EvExists (audio t); EvUnlink (audio t)], 2%nat.
      split; [|done]. destruct (removable _ _); simpl; by rewrite <- !app_assoc.
    + exists [EvUnlink (tags_json t); EvExists (audio t)], 1%nat.
      split; [|done]. by rewrite <- !app_assoc.
Qed.

Section CleanupProperties.
Context `{Collab : Collaborators}.

(** C3, as amended.  Whenever tagging succeeds the cleanup runs, whatever
    cover embedding returned.  When none of its removals raises, what it
    removes is exactly: the sidecar; the cover, if the unit has one; the
    original audio, if and only if it is not the tagged file and still
    exists.  For a unit already in MP3 the tagged file is the original:
    sidecar and cover are removed and the audio is kept. *)
Theorem cleanup_removes_staging (t : Triplet) (w : World) d w1 p w2 w3 :
  read_metadata (tags_json t) w = (Val (Some d), w1) ->
  normalize (audio t) w1 = (Val (Some p), w2) ->
  apply_tags p d w2 = (Val true, w3) ->
  (exists evs, trace (snd (process_triplet t w)) =
               trace (after_embed t p w3) ++ EvUnlink (tags_json t) :: evs) /\
  (fst (cleanup_body t p (after_embed t p w3)) = Val tt ->
   files (snd (process_triplet t w)) = swept t p (files (after_embed t p w3))) /\
  (lower (suffix (audio t)) = ".mp3" ->
   p = audio t /\
   forall fs, swept t p fs !! tags_json t = None /\
              (forall c, cover t = Some c -> swept t p fs !! c = None) /\
              (tags_json t ≠ audio t -> cover t ≠ Some (audio t) ->
               swept t p fs !! audio t = fs !! audio t)).
Proof.
  intros Hr Hn Ha.
  rewrite (process_triplet_success _ _ _ _ _ _ _ Hr Hn Ha). simpl.
  split; [apply cleanup_starts|]. split.
  - intros Hbody. rewrite cleanup_eq. simpl. by apply cleanup_body_done.
  - intros Hmp3. rewrite normalize_eq in Hn.
    apply String.eqb_eq in Hmp3. rewrite Hmp3 in Hn. inversion Hn; subst p.
    split; [done|]. intros fs. unfold swept.
    rewrite String.eqb_refl. simpl.
    destruct (cover t) as [c|]; repeat split.
    + destruct (decide (c = tags_json t)) as [->|Hne].
      * by rewrite lookup_delete_eq.
      * by rewrite lookup_delete_ne, lookup_delete_eq.
    + intros c' [= <-]. by rewrite lookup_delete_eq.
    + intros Hj Hc. rewrite !lookup_delete_ne; [done|done|congruence].
    + by rewrite lookup_delete_eq.
    + done.
    + intros Hj _. by rewrite lookup_delete_ne.
Qed.

(** C9. The removals are attempted in the order sidecar, cover, original
    audio, within one [try]: when the removal of the sidecar raises, the
    cleanup ends there and the world is the one before it plus that one
    attempt; when the removal of the cover raises, the original audio is
    not tried.  The unit is reported successful all the same. *)
Theorem cleanup_stops_at_first_failure (t : Triplet) (p : string) (w : World) :
  fst (cleanup t p w) = Val tt /\
  (exists evs k, trace (snd (cleanup t p w)) = trace w ++ evs /\
                 unlinked evs = take k (cleanup_order t)) /\
  (forall e, fst (unlink (tags_json t) w) = Exc e ->
             snd (cleanup t p w) = emits [EvUnlink (tags_json t)] w) /\
  (forall c e, cover t = Some c ->
               fst (unlink (tags_json t) w) = Val tt ->
               fst (unlink c (snd (unlink (tags_json t) w))) = Exc e ->
               snd (cleanup t p w) = emits [EvUnlink c] (snd (unlink (tags_json t) w))) /\
  (forall w0 d w1 w2 w3,
      read_metadata (tags_json t) w0 = (Val (Some d), w1) ->
      normalize (audio t) w1 = (Val (Some p), w2) ->
      apply_tags p d w2 = (Val true, w3) ->
      w = after_embed t p w3 ->
      process_triplet t w0 = (Val true, snd (cleanup t p w))).
Proof.
  split; [apply cleanup_returns|]. rewrite cleanup_eq. simpl.
  split; [apply sweep_order|]. split; [|split].
  - intros e He. apply unlink_refused in He as [Hrm _].
    unfold sweep, try_unlink. by rewrite Hrm.
  - intros c e Hc H1 H2.
    apply unlink_done in H1 as [Hrm1 Hw1]. rewrite Hw1 in *.
    apply unlink_refused in H2 as [Hrm2 _].
    unfold sweep, try_unlink. rewrite Hrm1, Hc. simpl. by rewrite Hrm2.
  - intros w0 d w1 w2 w3 Hr Hn Ha ->.
    rewrite (process_triplet_success _ _ _ _ _ _ _ Hr Hn Ha). by rewrite cleanup_eq.
Qed.

End CleanupProperties.

Lemma song_stages w :
  fst (read_metadata (tags_json song_unit) w) = Val (Some record_AB) ->
  fst (normalize (Collab := studio) (audio song_unit) (song_read w)) = Val (Some "song.mp3") ->
  fst (apply_tags (Collab := studio) "song.mp3" record_AB (song_converted w)) = Val true ->
  read_metadata (tags_json song_unit) w = (Val (Some record_AB), song_read w) /\
  normalize (Collab := studio) (audio song_unit) (song_read w)
  = (Val (Some "song.mp3"), song_converted w) /\
  apply_tags (Collab := studio) "song.mp3" record_AB (song_converted w)
  = (Val true, song_tagged w).
Proof. intros Hr Hn Ha. repeat split; by apply result_eq. Qed.

(** C3, as the claim has it: with a sidecar that cannot be removed, tagging
    succeeds and the cover and the original are still in the directory. *)
Lemma cleanup_removes_all_refuted :
  ~ cleanup_removes_all (Collab := studio) song_unit locked_sidecar.
Proof.
  intros H.
  destruct (song_stages locked_sidecar) as (Hr & Hn & Ha); [vm_compute; reflexivity..|].
  specialize (H _ _ _ _ _ Hr Hn Ha).
  apply (f_equal (fun fs => fs !! "song_cover.png")) in H.
  vm_compute in H. discriminate H.
Qed.


Lemma cleanup_removes_staging_witness :
  (exists evs, trace (snd (process_triplet (Collab := studio) song_unit album)) =
               trace (before_cleanup album) ++ EvUnlink (tags_json song_unit) :: evs) /\
  dom (files (snd (process_triplet (Collab := studio) song_unit album))) = {["song.mp3"]}.
Proof.
  destruct (song_stages album) as (Hr & Hn & Ha); [vm_compute; reflexivity..|].
  destruct (cleanup_removes_staging (Collab := studio) song_unit album _ _ _ _ _ Hr Hn Ha)
    as (Hrun & Hfiles & _).
  split; [exact Hrun|].
  rewrite Hfiles; [|vm_compute; reflexivity].
  vm_compute. reflexivity.
Defined.

Lemma cleanup_stops_at_first_failure_witness :
  process_triplet (Collab := studio) song_unit locked_sidecar
  = (Val true, emits [EvUnlink (tags_json song_unit)] (before_cleanup locked_sidecar)) /\
  snd (cleanup song_unit "song.mp3" (before_cleanup locked_cover))
  = emits [EvUnlink "song_cover.png"]
      (snd (unlink (tags_json song_unit) (before_cleanup locked_cover))).
Proof.
  split.
  - destruct (song_stages locked_sidecar) as (Hr & Hn & Ha); [vm_compute; reflexivity..|].
    destruct (cleanup_stops_at_first_failure (Collab := studio) song_unit "song.mp3"
                (before_cleanup locked_sidecar)) as (_ & _ & Hside & _ & Hunit).
    eapply eq_trans; [exact (Hunit locked_sidecar _ _ _ _ Hr Hn Ha eq_refl)|].
    apply f_equal, (Hside PermissionError). vm_compute. reflexivity.
  - destruct (cleanup_stops_at_first_failure (Collab := studio) song_unit "song.mp3"
                (before_cleanup locked_cover)) as (_ & _ & _ & Hcover & _).
    apply (Hcover "song_cover.png" PermissionError); vm_compute; reflexivity.
Defined.

(** * The matcher *)

Lemma find_split {A} (f : A -> bool) (l : list A) (c : A) :
  List.find f l = Some c ->
  exists before after, l = before ++ c :: after /\ f c = true /\
                       Forall (fun x => f x = false) before.
Proof.
  induction l as [|x l IH]; simpl; [done|].
  destruct (f x) eqn:Hx.
  - intros [= ->]. by exists [], l.
  - intros H. destruct (IH H) as (before & after & -> & Hc & Hb).
    exists (x :: before), after. repeat split; [done|]. by constructor.
Qed.

Lemma find_none_all {A} (f : A -> bool) (l : list A) :
  List.find f l = None -> Forall (fun x => f x = false) l.
Proof.
  induction l as [|x l IH]; simpl; [by constructor|].
  destruct (f x) eqn:Hx; [done|]. intros H. constructor; auto.
Qed.

Lemma probed_split fs before c after :
  present fs c = true -> Forall (fun x => present fs x = false) before ->
  probed fs (before ++ c :: after) = before ++ [c].
Proof.
  intros Hc Hb. induction Hb as [|x l Hx _ IH]; simpl.
  - by rewrite Hc.
  - by rewrite Hx, IH.
Qed.

Lemma probed_all fs l : Forall (fun x => present fs x = false) l -> probed fs l = l.
Proof. induction 1 as [|x l Hx _ IH]; simpl; [done|]. by rewrite Hx, IH. Qed.

Lemma unit_for_Some fs j t :
  unit_for fs j = Some t ->
  tags_json t = j /\
  List.find (present fs) (audio_candidates (base_name_of j)) = Some (audio t) /\
  cover t = List.find (present fs) (cover_candidates (base_name_of j)).
Proof.
  unfold unit_for. destruct (List.find _ (audio_candidates _)) as [a|]; [|done].
  by intros [= <-].
Qed.

Lemma matched_unit w ts w' t :
  find_triplets w = (Val ts, w') -> t ∈ ts ->
  tags_json t ∈ glob_tags w /\ unit_for (files w) (tags_json t) = Some t.
Proof.
  rewrite find_triplets_eq. intros [= <- _] Ht.
  apply list_elem_of_omap in Ht as (j & Hj & Hu).
  destruct (unit_for_Some _ _ _ Hu) as (-> & _). done.
Qed.

Lemma plain_audio_exts ext : ext ∈ audio_exts -> plain_ext ext.
Proof.
  unfold audio_exts. rewrite !elem_of_cons, elem_of_nil.
  intros [->|[->|[->|[->|[]]]]]; (split; [reflexivity | simpl; lia]).
Qed.

Lemma matched_audio w ts w' t :
  find_triplets w = (Val ts, w') -> t ∈ ts ->
  exists ext, ext ∈ audio_exts /\ audio t = base_name_of (tags_json t) +:+ ext /\
              present (files w) (audio t) = true.
Proof.
  intros Hf Ht. destruct (matched_unit _ _ _ _ Hf Ht) as [_ Hu].
  destruct (unit_for_Some _ _ _ Hu) as (_ & Ha & _).
  apply find_some in Ha as [Hin Hp].
  unfold audio_candidates in Hin. apply in_map_iff in Hin as (ext & Heq & Hext).
  exists ext. split; [by apply list_elem_of_In|]. by split.
Qed.

Lemma matched_audio_nonempty w ts w' t :
  find_triplets w = (Val ts, w') -> t ∈ ts -> audio t ≠ "".
Proof.
  intros Hf Ht. destruct (matched_audio _ _ _ _ Hf Ht) as (ext & Hext & -> & _).
  intros E. apply append_eq_nil in E as [_ ->].
  apply plain_audio_exts in Hext as [_ Hlen]. simpl in Hlen. lia.
Qed.

(** C4. A first-match loop returns the first candidate that exists and
    probes nothing after it; a matched unit's audio and cover are what the
    loops return on the candidates [.m4a, .mp4, .mp3, .flac] and
    [_cover.jpeg, _cover.jpg, _cover.png, _cover.webp] of its base name.
    When [<base>.m4a] exists it is the audio of the unit, whatever else
    exists, and it is the only name probed. *)
Theorem first_match_wins (w : World) :
  (forall candidates,
      match fst (first_existing candidates w) with
      | Val (Some c) =>
          exists before after,
            candidates = before ++ c :: after /\
            present (files w) c = true /\
            Forall (fun x => present (files w) x = false) before /\
            snd (first_existing candidates w) = emits (map EvExists (before ++ [c])) w
      | Val None =>
          Forall (fun x => present (files w) x = false) candidates /\
          snd (first_existing candidates w) = emits (map EvExists candidates) w
      | Exc _ => False
      end) /\
  (forall ts w' t,
      find_triplets w = (Val ts, w') -> t ∈ ts ->
      let b := base_name_of (tags_json t) in
      audio_candidates b = [b +:+ ".m4a"; b +:+ ".mp4"; b +:+ ".mp3"; b +:+ ".flac"] /\
      cover_candidates b = [b +:+ "_cover.jpeg"; b +:+ "_cover.jpg";
                            b +:+ "_cover.png"; b +:+ "_cover.webp"] /\
      fst (first_existing (audio_candidates b) w) = Val (Some (audio t)) /\
      fst (first_existing (cover_candidates b) w) = Val (cover t) /\
      (present (files w) (b +:+ ".m4a") = true ->
       audio t = b +:+ ".m4a" /\ audio t ≠ b +:+ ".mp3" /\
       snd (first_existing (audio_candidates b) w) = emits [EvExists (b +:+ ".m4a")] w)).
Proof.
  split.
  - intros candidates. rewrite first_existing_eq. simpl.
    destruct (List.find _ _) as [c|] eqn:Hfind.
    + destruct (find_split _ _ _ Hfind) as (before & after & -> & Hc & Hb).
      exists before, after. repeat split; [done..|]. by rewrite probed_split.
    + apply find_none_all in Hfind. split; [done|]. by rewrite probed_all.
  - intros ts w' t Hf Ht b.
    destruct (matched_unit _ _ _ _ Hf Ht) as [_ Hu].
    destruct (unit_for_Some _ _ _ Hu) as (_ & Ha & Hc). fold b in Ha, Hc.
    split; [reflexivity|]. split; [reflexivity|].
    rewrite !first_existing_eq. cbn [fst snd]. rewrite Ha, Hc.
    split; [done|]. split; [done|].
    intros Hm4a. unfold audio_candidates in *. cbn [map audio_exts List.find probed] in *.
    rewrite Hm4a in *. inversion Ha as [Haudio].
    repeat split. intros E. by apply (inj (String.append b)) in E.
Qed.

(** C5, on the code.  The base name is what is left of the sidecar's stem
    after every occurrence of [_tags] is deleted: the sidecars
    [a_tags.json] and [a_tags_tags.json] both have the base name [a], and
    the matcher emits two units for it, with the same audio file. *)
Theorem find_triplets_twins :
  exists w',
    find_triplets twins =
    (Val [mkTriplet "a.mp3" "a_tags_tags.json" None; mkTriplet "a.mp3" "a_tags.json" None], w') /\
    base_name_of "a_tags.json" = "a" /\ base_name_of "a_tags_tags.json" = "a".
Proof.
  eexists. split; [vm_compute; reflexivity|].
  split; vm_compute; reflexivity.
Qed.

Lemma first_match_wins_witness :
  find_triplets both_formats
  = (Val [mkTriplet "song.m4a" "song_tags.json" None], snd (find_triplets both_formats)) /\
  let b := base_name_of "song_tags.json" in
  b = "song" /\
  snd (first_existing (audio_candidates b) both_formats)
  = emits [EvExists (b +:+ ".m4a")] both_formats.
Proof.
  assert (Hf : find_triplets both_formats
               = (Val [mkTriplet "song.m4a" "song_tags.json" None],
                  snd (find_triplets both_formats)))
    by (apply result_eq; vm_compute; reflexivity).
  split; [exact Hf|]. intros b. split; [vm_compute; reflexivity|].
  destruct (first_match_wins both_formats) as [_ H].
  destruct (H _ _ (mkTriplet "song.m4a" "song_tags.json" None) Hf)
    as (_ & _ & _ & _ & Hm4a); [by apply list_elem_of_singleton|].
  destruct Hm4a as (_ & _ & Hprobe); [vm_compute; reflexivity|].
  exact Hprobe.
Defined.

(** * Normalization *)

Lemma sweep_extends ok t p w :
  (forall q, ok (EvUnlink q) = true) -> (forall q, ok (EvExists q) = true) ->
  extends_by ok w (sweep t p w).
Proof.
  intros Hu He. unfold sweep, try_unlink, extends_by; simpl.
  repeat match goal with
         | |- context [if ?b then _ else _] => destruct b; simpl
         | |- context [match cover t with _ => _ end] => destruct (cover t) as [c|]; simpl
         end;
    rewrite <- ?app_assoc; simpl; eexists; (split; [reflexivity|]);
    simpl; by rewrite ?Hu, ?He.
Qed.

Lemma after_embed_extends ok t p w :
  (forall q, ok (EvLoad q) = true) -> (forall q, ok (EvOpen q) = true) ->
  (forall q, ok (EvSave q) = true) ->
  extends_by ok w (after_embed t p w).
Proof.
  intros Hl Ho Hs. unfold after_embed. destruct (cover t) as [c|]; [|apply extends_by_refl].
  by apply embed_cover_art_frame.
Qed.

Section NormalizeProperties.
Context `{Collab : Collaborators}.



End NormalizeProperties.


(** * Tagging *)

Lemma add_all_snoc fs f t : add_all (fs ++ [f]) t = put f (add_all fs t).
Proof. unfold add_all. by rewrite foldl_app. Qed.

Lemma lookup_put f (t : ID3) k :
  put f t !! k =
  if String.eqb (HashKey f) k then (if blank f then None else Some f) else t !! k.
Proof.
  unfold put. destruct (String.eqb_spec (HashKey f) k) as [->|Hne]; destruct (blank f).
  - by rewrite lookup_delete_eq.
  - by rewrite lookup_insert_eq.
  - by rewrite lookup_delete_ne.
  - by rewrite lookup_insert_ne.
Qed.

Lemma lookup_add_all fs (t : ID3) k :
  add_all fs t !! k =
  match List.find (fun f => String.eqb (HashKey f) k) (rev fs) with
  | Some f => if blank f then None else Some f
  | None => t !! k
  end.
Proof.
  induction fs as [|f fs IH] using rev_ind; [done|].
  rewrite add_all_snoc, rev_app_distr, lookup_put. simpl.
  by destruct (String.eqb (HashKey f) k).
Qed.

Lemma add_all_idem fs (t : ID3) : add_all fs (add_all fs t) = add_all fs t.
Proof.
  apply map_eq. intros k. rewrite (lookup_add_all fs (add_all fs t)).
  rewrite (lookup_add_all fs t). by destruct (List.find _ _).
Qed.

Section TaggingProperties.
Context `{Collab : Collaborators}.

Lemma lookup_field_frames mk key id d fi (t : ID3) k :
  field_frames mk key id d = Some fi ->
  add_all fi t !! k =
  let f := mk (frame_text id (field d key)) in
  if truthy (field d key) && String.eqb (HashKey f) k
  then (if blank f then None else Some f) else t !! k.
Proof.
  unfold field_frames. destruct (is_dict d); [|done].
  destruct (truthy (field d key)); simpl.
  - destruct (frame_accepts _ _); [|done]. intros [= <-].
    unfold add_all. cbn [foldl]. by rewrite lookup_put.
  - by intros [= <-].
Qed.

Lemma frames_for_lookup d fs (t : ID3) k :
  frames_for d = Some fs ->
  add_all fs t !! k =
  if truthy (field d "comment") && String.eqb comment_key k
  then Some (COMM 3 "eng" "" [frame_text "COMM" (field d "comment")])
  else if truthy (field d "genre") && String.eqb "TCON" k
  then (if String.eqb (frame_text "TCON" (field d "genre")) "" then None
        else Some (TextFrame "TCON" 3 [frame_text "TCON" (field d "genre")]))
  else if truthy (field d "year") && String.eqb "TDRC" k
  then (if String.eqb (frame_text "TDRC" (field d "year")) "" then None
        else Some (TextFrame "TDRC" 3 [frame_text "TDRC" (field d "year")]))
  else if truthy (field d "album") && String.eqb "TALB" k
  then (if String.eqb (frame_text "TALB" (field d "album")) "" then None
        else Some (TextFrame "TALB" 3 [frame_text "TALB" (field d "album")]))
  else if truthy (field d "artist") && String.eqb "TPE1" k
  then (if String.eqb (frame_text "TPE1" (field d "artist")) "" then None
        else Some (TextFrame "TPE1" 3 [frame_text "TPE1" (field d "artist")]))
  else if truthy (field d "title") && String.eqb "TIT2" k
  then (if String.eqb (frame_text "TIT2" (field d "title")) "" then None
        else Some (TextFrame "TIT2" 3 [frame_text "TIT2" (field d "title")]))
  else t !! k.
Proof.
  unfold frames_for.
  destruct (field_frames _ "title" _ d) as [f1|] eqn:H1; [|done].
  destruct (field_frames _ "artist" _ d) as [f2|] eqn:H2; [|done].
  destruct (field_frames _ "album" _ d) as [f3|] eqn:H3; [|done].
  destruct (field_frames _ "year" _ d) as [f4|] eqn:H4; [|done].
  destruct (field_frames _ "genre" _ d) as [f5|] eqn:H5; [|done].
  destruct (field_frames _ "comment" _ d) as [f6|] eqn:H6; [|done].
  simpl. intros [= <-].
  rewrite <- !add_all_app.
  rewrite (lookup_field_frames _ _ _ _ _ _ _ H6), (lookup_field_frames _ _ _ _ _ _ _ H5),
    (lookup_field_frames _ _ _ _ _ _ _ H4), (lookup_field_frames _ _ _ _ _ _ _ H3),
    (lookup_field_frames _ _ _ _ _ _ _ H2), (lookup_field_frames _ _ _ _ _ _ _ H1).
  reflexivity.
Qed.

(** C7, as amended.  Applying a record a second time changes neither the
    result nor any file.  After a successful application the container
    of the file holds, under the key of each field that is present and
    non-empty, the one frame built from the field's value, unless the
    tag library renders the value as the empty text: then the file has
    no frame under that key.  Under the key of a field that is absent or
    empty, and under every other key, it holds what it held before. *)
Theorem apply_tags_idempotent (p : string) (d : json) (w : World) :
  let once := apply_tags p d w in
  let twice := apply_tags p d (snd once) in
  fst twice = fst once /\
  files (snd twice) = files (snd once) /\
  (fst once = Val true ->
   exists s t0 (t' : ID3),
     files w !! p = Some (Mpeg s t0) /\
     files (snd once) !! p = Some (Mpeg s (Some t')) /\
     (forall key id, (key, id) ∈ text_fields ->
        t' !! id = if truthy (field d key)
                   then (if String.eqb (frame_text id (field d key)) "" then None
                         else Some (TextFrame id 3 [frame_text id (field d key)]))
                   else default ∅ t0 !! id) /\
     t' !! comment_key = (if truthy (field d "comment")
                          then Some (COMM 3 "eng" "" [frame_text "COMM" (field d "comment")])
                          else default ∅ t0 !! comment_key) /\
     (forall k, k ∉ comment_key :: text_fields.*2 -> t' !! k = default ∅ t0 !! k)).
Proof.
  intros once twice. subst once twice. rewrite !apply_tags_eq.
  destruct (files w !! p) as [[b|v|s t0]|] eqn:Hp; simpl; rewrite ?Hp; try done.
  destruct (frames_for d) as [fs|] eqn:Hfs; simpl; rewrite ?Hp, ?Hfs; [|done].
  destruct (bool_decide (p ∈ unwritable w)) eqn:Hw; simpl; rewrite ?Hp, ?Hfs, ?Hw; [done|].
  rewrite lookup_insert_eq. simpl. rewrite ?Hfs, ?Hw. simpl.
  split; [done|]. split.
  { by rewrite add_all_idem, insert_insert_eq. }
  intros _. exists s, t0, (add_all fs (default ∅ t0)).
  split; [done|]. split; [by rewrite ?lookup_insert_eq|].
  split; [|split].
  - intros key id Hin. rewrite (frames_for_lookup _ _ _ _ Hfs).
    unfold text_fields in Hin. rewrite !elem_of_cons, elem_of_nil in Hin.
    destruct Hin as [[= -> ->]|[[= -> ->]|[[= -> ->]|[[= -> ->]|[[= -> ->]|[]]]]]];
      unfold comment_key; simpl; rewrite ?andb_false_r; simpl; by rewrite ?andb_true_r.
  - rewrite (frames_for_lookup _ _ _ _ Hfs).
    unfold comment_key; simpl; rewrite ?andb_false_r; simpl; by rewrite ?andb_true_r.
  - intros k Hk. rewrite (frames_for_lookup _ _ _ _ Hfs).
    simpl in Hk. rewrite !not_elem_of_cons in Hk.
    destruct Hk as (H0 & H1 & H2 & H3 & H4 & H5 & _).
    apply not_eq_sym, String.eqb_neq in H0, H1, H2, H3, H4, H5.
    simpl in *. rewrite H0, H1, H2, H3, H4, H5.
    by rewrite !andb_false_r.
Qed.

End TaggingProperties.

(** C7, as the claim has it: the year [soon] is no time stamp; tagging
    succeeds and the file has no frame for the year. *)
Lemma one_frame_per_field_refuted :
  ~ one_frame_per_field (Collab := studio) "song.mp3" record_soon tagged_once.
Proof.
  intros H.
  destruct (H ltac:(vm_compute; reflexivity) "year" "TDRC") as (s & t' & f & Hp & Hf).
  - unfold text_fields. do 3 apply list_elem_of_further. apply list_elem_of_here.
  - reflexivity.
  - assert (Hno : forall s0 t0,
               files (snd (apply_tags (Collab := studio) "song.mp3" record_soon tagged_once))
               !! "song.mp3" = Some (Mpeg s0 (Some t0)) -> t0 !! "TDRC" = None).
    { intros s0 t0. vm_compute. intros [= <- <-]. reflexivity. }
    rewrite (Hno _ _ Hp) in Hf. discriminate Hf.
Qed.

Lemma apply_tags_idempotent_witness :
  fst (apply_tags (Collab := studio) "song.mp3" record_AB tagged_once) = Val true /\
  files (snd (apply_tags (Collab := studio) "song.mp3" record_AB
                (snd (apply_tags (Collab := studio) "song.mp3" record_AB tagged_once))))
  = files (snd (apply_tags (Collab := studio) "song.mp3" record_AB tagged_once)).
Proof.
  split; [vm_compute; reflexivity|].
  exact (proj1 (proj2 (apply_tags_idempotent (Collab := studio) "song.mp3" record_AB tagged_once))).
Defined.
(** * The batch *)

Section BatchProperties.
Context `{Collab : Collaborators}.

(** A unit returns, or lets the exception of line 84 through. *)
Lemma process_triplet_outcome t w :
  audio t ≠ "" ->
  (exists b, fst (process_triplet t w) = Val b) \/
  fst (process_triplet t w) = Exc UnicodeDecodeError.
Proof.
  intros Hne. rewrite process_triplet_eq.
  destruct (record_of _) as [d|]; [|simpl; eauto].
  rewrite normalize_eq.
  assert (Htag : forall p w2, exists b,
             fst (match apply_tags p d w2 with
                  | (Val true, w3) => (Val true, snd (cleanup t p (after_embed t p w3)))
                  | (_, w3) => (Val false, w3)
                  end) = Val b).
  { intros p w2. destruct (apply_tags p d w2) as [[[]|e] w3]; simpl; eauto. }
  destruct (String.eqb _ _); [left; apply Htag|].
  destruct (with_suffix_mp3 (audio t) Hne) as (out & -> & _).
  destruct (encoded _ _ _); [left; apply Htag|].
  destruct (failure_reported _ _ _); simpl; eauto.
Qed.

Lemma process_all_outcome ts :
  Forall (fun t => audio t ≠ "") ts ->
  forall n w,
    (exists k, fst (process_all ts n w) = Val k /\ (n <= k <= n + length ts)%nat) \/
    fst (process_all ts n w) = Exc UnicodeDecodeError.
Proof.
  induction 1 as [|t ts Ht _ IH]; intros n w; simpl.
  - left. exists n. split; [done | lia].
  - unfold bind. destruct (process_triplet_outcome t w Ht) as [[b Hb]|Hb];
      destruct (process_triplet t w) as [r w1]; simpl in Hb; subst r; [|by right].
    destruct (IH (if b then S n else n) w1) as [(k & Hk & Hle)|Hk]; [left|by right].
    exists k. split; [done|]. destruct b; lia.
Qed.

End BatchProperties.

(** C8, on the code.  The directory exists and holds one unit, whose audio
    the encoder refuses with an error output that is not UTF-8: decoding it
    in the handler of line 84 raises, nothing catches the exception, and
    the interpreter exits with status 1.  With the same refusal printed in
    ASCII the unit is marked failed and the status is 0. *)
Theorem exit_status_undecodable_stderr :
  target album = Directory /\
  fst (find_triplets album) = Val [song_unit] /\
  fst (convert_to_mp3 (Collab := garbler) "song.flac" "song.mp3" (song_read album))
  = Exc UnicodeDecodeError /\
  fst (main (Collab := garbler) album) = Exc UnicodeDecodeError /\
  exit_status (Collab := garbler) album = 1 /\
  fst (main (Collab := brittle) album) = Val (0%nat, 1%nat) /\
  exit_status (Collab := brittle) album = 0.
Proof. repeat apply conj; vm_compute; reflexivity. Qed.

(** * Conversion onto an existing MP3 *)

Lemma glob_tags_ends w j : j ∈ glob_tags w -> exists pre, j = pre +:+ "_tags.json".
Proof.
  unfold glob_tags. rewrite list_elem_of_filter. intros [H _].
  apply ends_with_append. by apply Is_true_true.
Qed.

Lemma last_char_sidecar w j : j ∈ glob_tags w -> last_char j = Some "n"%char.
Proof. intros H. destruct (glob_tags_ends _ _ H) as [pre ->]. by rewrite last_char_append. Qed.


Lemma last_char_cover b ext :
  ext ∈ cover_exts ->
  last_char (b +:+ "_cover" +:+ ext) = Some "g"%char \/
  last_char (b +:+ "_cover" +:+ ext) = Some "p"%char.
Proof.
  unfold cover_exts. rewrite !elem_of_cons, elem_of_nil.
  intros [->|[->|[->|[->|[]]]]]; rewrite last_char_append by done; simpl; auto.
Qed.

Lemma matched_cover w ts w' t c :
  find_triplets w = (Val ts, w') -> t ∈ ts -> cover t = Some c ->
  present (files w) c = true /\
  (last_char c = Some "g"%char \/ last_char c = Some "p"%char).
Proof.
  intros Hf Ht Hc. destruct (matched_unit _ _ _ _ Hf Ht) as [_ Hu].
  destruct (unit_for_Some _ _ _ Hu) as (_ & _ & Hcov).
  rewrite Hc in Hcov. symmetry in Hcov. apply find_some in Hcov as [Hin Hp].
  split; [done|].
  unfold cover_candidates in Hin. apply in_map_iff in Hin as (ext & <- & Hext).
  apply last_char_cover. by apply list_elem_of_In.
Qed.

Lemma after_embed_lookup t p w s (tg : ID3) :
  files w !! p = Some (Mpeg s (Some tg)) ->
  exists tg', files (after_embed t p w) !! p = Some (Mpeg s (Some tg')).
Proof.
  intros Hp. unfold after_embed. destruct (cover t) as [c|]; [|eauto].
  rewrite embed_cover_art_eq, Hp.
  destruct (files w !! c); simpl; [|eauto].
  destruct (bool_decide _); simpl; [eauto|].
  rewrite lookup_insert_eq. eauto.
Qed.

Lemma after_embed_other t p w q :
  q ≠ p -> files (after_embed t p w) !! q = files w !! q.
Proof.
  intros Hne. unfold after_embed. destruct (cover t) as [c|]; [|done].
  rewrite embed_cover_art_eq.
  destruct (files w !! p) as [[| |s tg]|]; simpl; try done.
  destruct (files w !! c); simpl; [|done].
  destruct (bool_decide _); simpl; [done|].
  by rewrite lookup_insert_ne.
Qed.

Lemma after_embed_undeletable t p w : undeletable (after_embed t p w) = undeletable w.
Proof.
  unfold after_embed. destruct (cover t) as [c|]; [|done].
  rewrite embed_cover_art_eq.
  destruct (files w !! p) as [[| |s tg]|]; simpl; try done.
  destruct (files w !! c); simpl; [|done].
  by destruct (bool_decide _).
Qed.

Lemma sweep_other t p w q :
  q ∉ cleanup_order t -> files (sweep t p w) !! q = files w !! q.
Proof.
  unfold cleanup_order. rewrite not_elem_of_cons, not_elem_of_app, list_elem_of_singleton.
  intros (Hj & Hc & Ha). unfold sweep, try_unlink; simpl.
  destruct (removable w (tags_json t)); simpl; [|done].
  destruct (cover t) as [c|]; simpl.
  - assert (q ≠ c) by (intros ->; apply Hc; simpl; by apply list_elem_of_singleton).
    destruct (removable _ c); simpl; [|by rewrite lookup_delete_ne].
    destruct (negb _); simpl; [|by rewrite !lookup_delete_ne].
    destruct (present _ _); simpl; [|by rewrite !lookup_delete_ne].
    destruct (removable _ _); simpl; by rewrite !lookup_delete_ne.
  - destruct (negb _); simpl; [|by rewrite !lookup_delete_ne].
    destruct (present _ _); simpl; [|by rewrite !lookup_delete_ne].
    destruct (removable _ _); simpl; by rewrite !lookup_delete_ne.
Qed.

(** When nothing stands in the way of the removals, the original is gone
    after the cleanup of a converted unit. *)
Lemma sweep_original t p w :
  audio t ≠ p ->
  is_Some (files w !! tags_json t) -> tags_json t ∉ undeletable w ->
  (forall c, cover t = Some c ->
             is_Some (files w !! c) /\ c ≠ tags_json t /\ c ∉ undeletable w) ->
  audio t ∉ undeletable w ->
  files (sweep t p w) !! audio t = None.
Proof.
  intros Hap [x Hj] Hju Hcov Hau. unfold sweep, try_unlink, removable, present; simpl.
  rewrite Hj, (bool_decide_eq_false_2 _ Hju). simpl.
  apply String.eqb_neq in Hap.
  destruct (cover t) as [c|]; simpl.
  - destruct (Hcov c eq_refl) as ([y Hc] & Hcj & Hcu).
    rewrite lookup_delete_ne, Hc, (bool_decide_eq_false_2 _ Hcu) by done. simpl.
    rewrite Hap. simpl.
    destruct (delete c (delete (tags_json t) (files w)) !! audio t) eqn:E; simpl; [|done].
    rewrite (bool_decide_eq_false_2 _ Hau). simpl. by rewrite lookup_delete_eq.
  - rewrite Hap. simpl.
    destruct (delete (tags_json t) (files w) !! audio t) eqn:E; simpl; [|done].
    rewrite (bool_decide_eq_false_2 _ Hau). simpl. by rewrite lookup_delete_eq.
Qed.

Lemma plain_m4a_mp4 ext : ext = ".m4a" \/ ext = ".mp4" -> plain_ext ext.
Proof. intros [->| ->]; (split; [reflexivity | simpl; lia]). Qed.

Lemma sibling_mp3 b ext :
  b ≠ "" -> ext = ".m4a" \/ ext = ".mp4" ->
  suffix (b +:+ ext) = ext /\ String.eqb (lower ext) ".mp3" = false /\
  with_suffix (b +:+ ext) ".mp3" = Some (b +:+ ".mp3").
Proof.
  intros Hb Hext. pose proof (plain_m4a_mp4 _ Hext) as Hp.
  split; [by apply suffix_append|]. split; [by destruct Hext as [->| ->]|].
  by apply with_suffix_append.
Qed.

Section OverwriteProperties.
Context `{Collab : Collaborators}.

Lemma matched_m4a_or_mp4 w ts w' t :
  find_triplets w = (Val ts, w') -> t ∈ ts ->
  present (files w) (base_name_of (tags_json t) +:+ ".m4a") = true \/
  present (files w) (base_name_of (tags_json t) +:+ ".mp4") = true ->
  audio t = base_name_of (tags_json t) +:+ ".m4a" \/
  audio t = base_name_of (tags_json t) +:+ ".mp4".
Proof.
  intros Hf Ht Hor. destruct (matched_unit _ _ _ _ Hf Ht) as [_ Hu].
  destruct (unit_for_Some _ _ _ Hu) as (_ & Ha & _).
  unfold audio_candidates in Ha. cbn [map audio_exts List.find] in Ha.
  destruct (present _ (_ +:+ ".m4a")); [left; congruence|].
  destruct (present _ (_ +:+ ".mp4")); [right; congruence|].
  by destruct Hor.
Qed.

(** C10, as amended.  For a non-empty base name with both [<base>.m4a]
    (or [<base>.mp4]) and [<base>.mp3] in the directory, the unit's audio
    is the former; its conversion is written to [<base>.mp3] by a command
    that carries [-y]; after a run that returns [True], [<base>.mp3] holds
    the stream encoded from the original, and the original is gone
    provided the sidecar, the cover and the original can be removed. *)
Theorem conversion_replaces_sibling_mp3 (w : World) ts w' t :
  find_triplets w = (Val ts, w') -> t ∈ ts ->
  let b := base_name_of (tags_json t) in
  b ≠ "" ->
  present (files w) (b +:+ ".m4a") = true \/ present (files w) (b +:+ ".mp4") = true ->
  present (files w) (b +:+ ".mp3") = true ->
  (audio t = b +:+ ".m4a" \/ audio t = b +:+ ".mp4") /\
  audio t ≠ b +:+ ".mp3" /\
  with_suffix (audio t) ".mp3" = Some (b +:+ ".mp3") /\
  (forall w2,
      "-y" ∈ ffmpeg_cmd (audio t) (b +:+ ".mp3") /\
      trace (snd (normalize (audio t) w2))
      = trace w2 ++ [EvRun (ffmpeg_cmd (audio t) (b +:+ ".mp3"))]) /\
  (forall w2 w3,
      files w2 = files w ->
      process_triplet t w2 = (Val true, w3) ->
      (exists c s t0 tg,
          files w !! audio t = Some c /\ transcode c = Some (Mpeg s t0) /\
          files w3 !! (b +:+ ".mp3") = Some (Mpeg s (Some tg))) /\
      (tags_json t ∉ undeletable w2 -> audio t ∉ undeletable w2 ->
       (forall c, cover t = Some c -> c ∉ undeletable w2) ->
       files w3 !! audio t = None)).
Proof.
  intros Hf Ht b Hb Hor Hmp3.
  pose proof (matched_m4a_or_mp4 _ _ _ _ Hf Ht Hor) as Haudio. fold b in Haudio.
  assert (Hext : exists ext, (ext = ".m4a" \/ ext = ".mp4") /\ audio t = b +:+ ext).
  { destruct Haudio as [E|E]; eauto. }
  destruct Hext as (ext & Hext & Ha).
  destruct (sibling_mp3 b ext Hb Hext) as (Hsuf & Hlow & Hwith).
  destruct (matched_unit _ _ _ _ Hf Ht) as [Hglob _].
  (* the four names end differently *)
  assert (Lm : last_char (b +:+ ".mp3") = Some "3"%char) by (by rewrite last_char_append).
  assert (Lj : last_char (tags_json t) = Some "n"%char) by (by eapply last_char_sidecar).
  assert (La : last_char (audio t) = Some "a"%char \/ last_char (audio t) = Some "4"%char).
  { rewrite Ha. destruct Hext as [->| ->]; rewrite last_char_append by done; auto. }
  assert (Lc : forall c, cover t = Some c ->
               present (files w) c = true /\
               (last_char c = Some "g"%char \/ last_char c = Some "p"%char))
    by (intros c Hc; by eapply matched_cover).
  assert (Nam : audio t ≠ b +:+ ".mp3").
  { intros E. rewrite E, Lm in La. by destruct La. }
  assert (Njm : tags_json t ≠ b +:+ ".mp3") by (intros E; rewrite E, Lm in Lj; done).
  assert (Nja : tags_json t ≠ audio t).
  { intros E. rewrite E in Lj. rewrite Lj in La. by destruct La. }
  assert (Ncov : forall c, cover t = Some c ->
                 c ≠ b +:+ ".mp3" /\ c ≠ tags_json t /\ c ≠ audio t).
  { intros c Hc. destruct (Lc c Hc) as [_ Hl]. repeat split; intros E; rewrite E in Hl.
    - rewrite Lm in Hl. by destruct Hl.
    - rewrite Lj in Hl. by destruct Hl.
    - destruct La as [La|La]; rewrite La in Hl; by destruct Hl. }
  assert (Hnorm : forall w2,
      normalize (audio t) w2 =
      match encoded w2 (audio t) (b +:+ ".mp3") with
      | Some c => (Val (Some (b +:+ ".mp3")),
                   set_files (<[b +:+ ".mp3" := c]> (files w2))
                     (emits [EvRun (ffmpeg_cmd (audio t) (b +:+ ".mp3"))] w2))
      | None => (if failure_reported w2 (audio t) (b +:+ ".mp3")
                 then Val None else Exc UnicodeDecodeError,
                 set_files (spoiled w2 (audio t) (b +:+ ".mp3"))
                   (emits [EvRun (ffmpeg_cmd (audio t) (b +:+ ".mp3"))] w2))
      end).
  { intros w2. rewrite normalize_eq. rewrite Ha at 1 2. rewrite Hsuf, Hlow.
    rewrite <- Ha. by rewrite Ha, Hwith, <- Ha. }
  split; [done|]. split; [done|]. split; [by rewrite Ha|]. split.
  { intros w2. split; [unfold ffmpeg_cmd; repeat constructor|].
    rewrite Hnorm. by destruct (encoded _ _ _). }
  intros w2 w3 Hfs Hproc. rewrite process_triplet_eq, Hnorm in Hproc.
  destruct (record_of (files w2 !! tags_json t)) as [d|] eqn:Hd; [|discriminate].
  assert (Hj : is_Some (files w !! tags_json t)).
  { rewrite <- Hfs. destruct (files w2 !! tags_json t); [eauto | discriminate]. }
  destruct (encoded _ (audio t) (b +:+ ".mp3")) as [out|] eqn:Henc;
    [|by destruct (failure_reported _ _ _)].
  unfold encoded in Henc. simpl in Henc. rewrite Hfs in Henc.
  destruct ffmpeg_installed; [|discriminate].
  destruct (files w !! audio t) as [c|] eqn:Hc; [|discriminate].
  destruct (transcode c) as [out'|] eqn:Hout; [|discriminate].
  destruct (bool_decide (b +:+ ".mp3" ∈ unwritable w2)) eqn:Hw; [discriminate|].
  injection Henc as ->.
  rewrite apply_tags_eq in Hproc. simpl in Hproc.
  rewrite lookup_insert_eq in Hproc.
  destruct out as [| |s t0]; try discriminate.
  destruct (frames_for d) as [fs|]; [|discriminate].
  rewrite Hw in Hproc. rewrite cleanup_eq in Hproc. simpl in Hproc.
  inversion Hproc as [Hw3]. clear Hproc.
  set (w4 := set_files _ _) in *.
  assert (H4m : files w4 !! (b +:+ ".mp3")
                = Some (Mpeg s (Some (add_all fs (default ∅ t0)))))
    by (subst w4; simpl; by rewrite lookup_insert_eq).
  assert (H4o : forall q, q ≠ b +:+ ".mp3" -> files w4 !! q = files w !! q)
    by (intros q Hq; subst w4; simpl; by rewrite !lookup_insert_ne, ?Hfs).
  split.
  - destruct (after_embed_lookup t _ _ _ _ H4m) as [tg Htg].
    exists c, s, t0, tg. split; [done|]. split; [done|].
    rewrite sweep_other; [done|].
    unfold cleanup_order. rewrite not_elem_of_cons, not_elem_of_app, list_elem_of_singleton.
    split; [done|]. split; [|done].
    destruct (cover t) as [c'|] eqn:Hc'; simpl; [|apply not_elem_of_nil].
    destruct (Ncov c' eq_refl) as (? & _). rewrite list_elem_of_singleton. congruence.
  - intros Uj Ua Uc. apply sweep_original.
    + done.
    + by rewrite after_embed_other, H4o.
    + by rewrite after_embed_undeletable.
    + intros c' Hc'. destruct (Ncov c' Hc') as (? & ? & _).
      destruct (Lc c' Hc') as [Hp _]. unfold present in Hp.
      rewrite after_embed_other, H4o, after_embed_undeletable by done.
      split; [|split; [done|by apply Uc]].
      destruct (files w !! c'); [eauto | discriminate].
    + by rewrite after_embed_undeletable.
Qed.

End OverwriteProperties.

(** C10, as the claim has it: the sidecar [_tags.json] has the empty base
    name; [.m4a] is its audio, and since [.m4a] has no suffix for [pathlib]
    the conversion is written to [.m4a.mp3], not over [.mp3]. *)
Lemma converts_onto_sibling_mp3_refuted :
  ~ converts_onto_sibling_mp3 hidden_files.
Proof.
  intros H.
  assert (Hf : find_triplets hidden_files
               = (Val [mkTriplet ".m4a" "_tags.json" None], snd (find_triplets hidden_files)))
    by (apply result_eq; vm_compute; reflexivity).
  destruct (H _ _ (mkTriplet ".m4a" "_tags.json" None) Hf) as [_ Hwith].
  - by apply list_elem_of_singleton.
  - left. vm_compute. reflexivity.
  - vm_compute. reflexivity.
  - vm_compute in Hwith. discriminate Hwith.
Qed.

Lemma conversion_replaces_sibling_mp3_witness :
  with_suffix "song.m4a" ".mp3" = Some (base_name_of "song_tags.json" +:+ ".mp3") /\
  files (snd (process_triplet (Collab := studio) (mkTriplet "song.m4a" "song_tags.json" None)
                both_formats)) !! "song.m4a" = None /\
  exists tg, files (snd (process_triplet (Collab := studio)
                           (mkTriplet "song.m4a" "song_tags.json" None) both_formats))
             !! (base_name_of "song_tags.json" +:+ ".mp3") = Some (Mpeg "m4a" (Some tg)).
Proof.
  assert (Hf : find_triplets both_formats
               = (Val [mkTriplet "song.m4a" "song_tags.json" None],
                  snd (find_triplets both_formats)))
    by (apply result_eq; vm_compute; reflexivity).
  assert (Hp : process_triplet (Collab := studio) (mkTriplet "song.m4a" "song_tags.json" None)
                 both_formats
               = (Val true, snd (process_triplet (Collab := studio)
                                   (mkTriplet "song.m4a" "song_tags.json" None) both_formats)))
    by (apply result_eq; vm_compute; reflexivity).
  destruct (conversion_replaces_sibling_mp3 (Collab := studio) both_formats _ _
              (mkTriplet "song.m4a" "song_tags.json" None) Hf)
    as (_ & _ & Hwith & _ & Hrun).
  - by apply list_elem_of_singleton.
  - vm_compute. discriminate.
  - left. vm_compute. reflexivity.
  - vm_compute. reflexivity.
  - split; [exact Hwith|].
    destruct (Hrun both_formats _ eq_refl Hp) as [(c & s & t0 & tg & Hc & Hout & Hm) Hgone].
    split.
    + apply Hgone; [apply not_elem_of_empty | apply not_elem_of_empty | discriminate].
    + vm_compute in Hc. inversion Hc; subst c. vm_compute in Hout. inversion Hout; subst.
      exists tg. exact Hm.
Defined.

(** * Further properties of the matcher and two end-to-end runs *)

Example pathlib_names :
  suffix "song.flac" = ".flac" /\ suffix ".mp3" = "" /\ suffix "a.b.MP3" = ".MP3" /\
  suffix "a." = "" /\ stem "x_tags.json" = "x_tags" /\
  with_suffix "song.flac" ".mp3" = Some "song.mp3" /\
  with_suffix ".m4a" ".mp3" = Some ".m4a.mp3" /\ with_suffix "" ".mp3" = None /\
  replace "_tags" "" "my_tags_song_tags" = "my_song" /\
  ends_with "_tags.json" "a_tags.json" = true /\ ends_with "_tags.json" "a_tags.jso" = false /\
  lower ".Mp3" = ".mp3".
Proof. repeat apply conj; vm_compute; reflexivity. Qed.

Lemma glob_tags_NoDup w : NoDup (glob_tags w).
Proof. unfold glob_tags. apply NoDup_filter, NoDup_elements. Qed.

Lemma unit_sidecars_from fs js j :
  j ∈ map tags_json (omap (unit_for fs) js) -> j ∈ js.
Proof.
  rewrite list_elem_of_fmap. intros (t & -> & Ht).
  apply list_elem_of_omap in Ht as (j & Hj & Hu).
  by destruct (unit_for_Some _ _ _ Hu) as (-> & _).
Qed.

Lemma unit_sidecars_NoDup fs js :
  NoDup js -> NoDup (map tags_json (omap (unit_for fs) js)).
Proof.
  induction 1 as [|j js Hj _ IH]; [constructor|].
  cbn [omap list_omap]. destruct (unit_for fs j) as [t|] eqn:Hu; [|exact IH].
  cbn [map]. destruct (unit_for_Some _ _ _ Hu) as (-> & _).
  constructor; [|exact IH]. intros Hin. by apply Hj, (unit_sidecars_from fs).
Qed.

Lemma unit_sidecars_filter fs js :
  map tags_json (omap (unit_for fs) js)
  = List.filter (fun j => existsb (present fs) (audio_candidates (base_name_of j))) js.
Proof.
  induction js as [|j js IH]; [done|].
  cbn [omap list_omap List.filter]. unfold unit_for at 1.
  destruct (List.find (present fs) (audio_candidates (base_name_of j))) as [a|] eqn:Ha.
  - apply find_some in Ha as [Hin Hp].
    assert (He : existsb (present fs) (audio_candidates (base_name_of j)) = true)
      by (apply existsb_exists; eauto).
    rewrite He. cbn [map tags_json]. by rewrite <- IH.
  - assert (He : existsb (present fs) (audio_candidates (base_name_of j)) = false).
    { apply not_true_is_false. intros He. apply existsb_exists in He as (x & Hin & Hp).
      eapply find_none in Ha; [|exact Hin]. congruence. }
    by rewrite He.
Qed.

(** X1. The matcher emits at most one unit per sidecar, in the order in
    which the sidecars are enumerated: the sidecars of the units are the
    enumerated sidecars that have an audio candidate, in that order.  A
    sidecar gets a unit exactly when one of the four audio candidates of
    its base name exists; the directory is left as it is. *)
Theorem matcher_units (w : World) :
  exists ts w',
    find_triplets w = (Val ts, w') /\ files w' = files w /\
    map tags_json ts
    = List.filter (fun j => existsb (present (files w)) (audio_candidates (base_name_of j)))
        (glob_tags w) /\
    NoDup (map tags_json ts) /\
    (forall t, t ∈ ts -> tags_json t ∈ glob_tags w /\ present (files w) (audio t) = true) /\
    (forall j, j ∈ glob_tags w ->
       ((exists t, t ∈ ts /\ tags_json t = j) <->
        exists ext, ext ∈ audio_exts /\ present (files w) (base_name_of j +:+ ext) = true)).
Proof.
  eexists _, _. split; [apply find_triplets_eq|]. split; [done|].
  split; [apply unit_sidecars_filter|].
  split; [apply unit_sidecars_NoDup, glob_tags_NoDup|]. split.
  - intros t Ht. apply list_elem_of_omap in Ht as (j & Hj & Hu).
    destruct (unit_for_Some _ _ _ Hu) as (-> & Ha & _).
    split; [done|]. by apply find_some in Ha as [_ ?].
  - intros j Hj. split.
    + intros (t & Ht & <-). apply list_elem_of_omap in Ht as (j & _ & Hu).
      destruct (unit_for_Some _ _ _ Hu) as (-> & Ha & _).
      apply find_some in Ha as [Hin Hp].
      unfold audio_candidates in Hin. apply in_map_iff in Hin as (ext & Heq & Hext).
      exists ext. split; [by apply list_elem_of_In|]. by rewrite Heq.
    + intros (ext & Hext & Hp).
      destruct (List.find (present (files w)) (audio_candidates (base_name_of j)))
        as [a|] eqn:Ha.
      * exists (mkTriplet a j (List.find (present (files w)) (cover_candidates (base_name_of j)))).
        split; [|done]. apply list_elem_of_omap. exists j. split; [done|].
        unfold unit_for. by rewrite Ha.
      * exfalso. eapply find_none in Ha.
        -- by rewrite Hp in Ha.
        -- unfold audio_candidates. apply in_map. by apply list_elem_of_In.
Qed.

(** The first end-to-end scenario: [song_tags.json] holding
    [[{"title":"A","artist":"B"}]], [song.flac] and [song_cover.png].  One
    unit of one succeeds; [song.mp3] is what is left, tagged with the title,
    the artist and a PNG front cover. *)
Theorem end_to_end_album :
  fst (main (Collab := studio) album) = Val (1%nat, 1%nat) /\
  files (snd (main (Collab := studio) album)) =
  {[ "song.mp3" :=
       Mpeg "flac"
         (Some (<["TIT2" := TextFrame "TIT2" 3 ["A"]]>
                (<["TPE1" := TextFrame "TPE1" 3 ["B"]]>
                 {["APIC:Cover" := APIC 3 "image/png" 3 "Cover" (Opaque "png")]}))) ]}.
Proof. apply conj; vm_compute; reflexivity. Qed.

(** The second end-to-end scenario: the sidecar decodes to [[]].  The unit
    fails, nothing is removed, and the run reports 0 of 1 with status 0. *)
Theorem end_to_end_empty_sidecar :
  fst (main (Collab := studio) empty_sidecar) = Val (0%nat, 1%nat) /\
  files (snd (main (Collab := studio) empty_sidecar)) = files empty_sidecar /\
  exit_status (Collab := studio) empty_sidecar = 0.
Proof. repeat apply conj; vm_compute; reflexivity. Qed.

(** * The stages one by one *)

Ltac settle :=
  simpl; repeat split; intros;
  repeat match goal with
         | H : _ /\ _ |- _ => destruct H
         | H : exists _, _ |- _ => destruct H
         | H : is_Some _ |- _ => destruct H
         end;
  simplify_eq; eauto.

(** X2. Reading the sidecar never raises and changes no file; its one call
    is the opening of the sidecar.  The record is the first element of the
    decoded array, whatever follows it (for a decoded string, its first
    character); every other content yields no record, and the unit then
    returns [False] without another call. *)
Theorem read_metadata_first_element `{Collab : Collaborators} (p : string) (w : World) :
  snd (read_metadata p w) = emits [EvOpen p] w /\
  (fst (read_metadata p w) = Val None \/ exists d, fst (read_metadata p w) = Val (Some d)) /\
  (forall t, tags_json t = p -> fst (read_metadata p w) = Val None ->
             process_triplet t w = (Val false, emits [EvOpen p] w)) /\
  (forall d,
      fst (read_metadata p w) = Val (Some d) <->
      (exists rest, files w !! p = Some (JsonText (JArr (d :: rest)))) \/
      (exists c s, files w !! p = Some (JsonText (JStr (String c s))) /\
                   d = JStr (String c EmptyString))).
Proof.
  rewrite read_metadata_eq. cbn [fst snd]. split; [done|]. split; [|split].
  - destruct (record_of _); eauto.
  - intros t <- Hnone. rewrite process_triplet_eq.
    by destruct (record_of _).
  - intros d. split.
    + destruct (files w !! p) as [[b|v|s t]|]; try done.
      destruct v as [| [] | n | [|c s] | [|x l] | [|m l]]; simpl; try done.
      * destruct (n =? 0); done.
      * intros [= <-]. right. eauto.
      * intros [= <-]. left. eauto.
    + intros [(rest & ->)|(c & s & -> & ->)]; reflexivity.
Qed.

Ltac field_step d k :=
  destruct (truthy (field d k)) eqn:?; simpl;
  [destruct (frame_accepts _ (field d k)) eqn:?; simpl;
   [|split; [by intros [? ?]|done]]|].

Section StageProperties.
Context `{Collab : Collaborators}.

(** X3. The conversion runs the encoder once, on the fixed command line.
    It returns [True] exactly when the encoder is installed, the input
    exists and is encoded, and the output can be written; the output
    then holds the encoded stream.  Otherwise it returns [False], unless
    the encoder has failed with an error output that is not UTF-8: then
    decoding it raises [UnicodeDecodeError], which the function lets
    through.  A conversion that does not return [True] leaves the files
    as they were, or with what the failing encoder left at the output;
    no other file ever changes. *)
Theorem convert_to_mp3_spec (input output : string) (w : World) :
  let run := convert_to_mp3 input output w in
  let stderr := ffmpeg_stderr (ffmpeg_cmd input output) (files w !! input)
                  (negb (bool_decide (output ∈ unwritable w))) in
  (trace (snd run) =
   trace w ++ [EvRun ["ffmpeg"; "-i"; input; "-codec:a"; "libmp3lame"; "-q:a"; "0"; "-y";
                      output]]) /\
  (fst run = Val true <->
   ffmpeg_installed = true /\ (output ∉ unwritable w) /\
   exists c out, files w !! input = Some c /\ transcode c = Some out) /\
  (forall c out, files w !! input = Some c -> transcode c = Some out ->
                 fst run = Val true -> files (snd run) = <[output := out]> (files w)) /\
  (fst run = Val true \/ fst run = Val false \/ fst run = Exc UnicodeDecodeError) /\
  (fst run = Exc UnicodeDecodeError <->
   ffmpeg_installed = true /\ fst run ≠ Val true /\ utf8_decodes stderr = false) /\
  (fst run ≠ Val true ->
   files (snd run) = files w \/
   exists c part, files w !! input = Some c /\ transcode c = None /\
                  leftover c = Some part /\ (output ∉ unwritable w) /\
                  files (snd run) = <[output := part]> (files w)) /\
  (forall q, q ≠ output -> files (snd run) !! q = files w !! q).
Proof.
  intros run stderr. subst run stderr.
  rewrite convert_to_mp3_eq. unfold encoded, spoiled, failure_reported.
  destruct ffmpeg_installed eqn:Hi; [|by settle].
  destruct (bool_decide (output ∈ unwritable w)) eqn:Hw;
    [apply bool_decide_eq_true in Hw | apply bool_decide_eq_false in Hw];
    (destruct (files w !! input) as [c|] eqn:Hc;
     [destruct (transcode c) as [out|] eqn:Hout;
      [|destruct (leftover c) as [part|] eqn:Hl]|]);
    cbn [negb orb andb fst snd files trace set_files emits];
    try destruct (utf8_decodes _) eqn:Hu;
    repeat apply conj; intros;
    repeat match goal with
           | H : _ /\ _ |- _ => destruct H
           | H : exists _, _ |- _ => destruct H
           end;
    simplify_eq; rewrite ?lookup_insert_ne by done; try done; eauto 10.
Qed.

Lemma frames_for_accepted d : is_Some (frames_for d) <-> record_accepted d = true.
Proof.
  unfold record_accepted, all_fields, text_fields, frames_for, field_frames.
  cbn [app forallb fst snd].
  destruct (is_dict d); simpl; [|split; [by intros [? ?]|done]].
  field_step d "title"; field_step d "artist"; field_step d "album";
    field_step d "year"; field_step d "genre"; field_step d "comment";
    split; eauto.
Qed.

(** X4. Tagging never raises and is all or nothing.  It returns [True]
    exactly when the file is MPEG audio, the record is an object whose
    present fields the tag library accepts, and the file can be written;
    then no other file has changed.  When it returns [False] (a record
    that is not an object, one rejected field, a file that is not audio)
    nothing is written, not even the frames of the fields before the
    rejected one. *)
Theorem apply_tags_all_or_nothing (p : string) (d : json) (w : World) :
  (exists b, fst (apply_tags p d w) = Val b) /\
  (fst (apply_tags p d w) = Val true <->
   (exists s t0, files w !! p = Some (Mpeg s t0)) /\
   record_accepted d = true /\ (p ∉ unwritable w)) /\
  (fst (apply_tags p d w) = Val false -> files (snd (apply_tags p d w)) = files w) /\
  (forall q, q ≠ p -> files (snd (apply_tags p d w)) !! q = files w !! q).
Proof.
  split; [apply apply_tags_returns|].
  pose proof (frames_for_accepted d) as Hacc.
  rewrite apply_tags_eq.
  destruct (files w !! p) as [[b|v|s t0]|]; simpl;
    try (split; [split; [done|by intros [(? & ? & ?) _]]|by split]).
  destruct (frames_for d) as [fs|]; simpl.
  - assert (Ha : record_accepted d = true) by (apply Hacc; eauto).
    destruct (bool_decide (p ∈ unwritable w)) eqn:Hw; simpl.
    + apply bool_decide_eq_true in Hw.
      split; [split; [done|by intros (_ & _ & ?)]|by split].
    + apply bool_decide_eq_false in Hw.
      split; [split; eauto|]. split; [done|].
      intros q Hq. by rewrite lookup_insert_ne.
  - split; [|by split]. split; [done|]. intros (_ & Ha & _).
    apply Hacc in Ha as [? ?]. done.
Qed.

End StageProperties.

Lemma HashKey_cover c data : HashKey (cover_frame c data) = "APIC:Cover".
Proof. reflexivity. Qed.

Lemma embed_cover_art_again p c w :
  c ≠ p ->
  files (snd (embed_cover_art p c (snd (embed_cover_art p c w))))
  = files (snd (embed_cover_art p c w)).
Proof.
  intros Hne. rewrite (embed_cover_art_eq p c w).
  destruct (files w !! p) as [[b|v|s t0]|] eqn:Hp; simpl;
    try (rewrite embed_cover_art_eq; simpl; by rewrite Hp).
  destruct (files w !! c) as [data|] eqn:Hc; simpl;
    [|rewrite embed_cover_art_eq; simpl; by rewrite Hp, Hc].
  destruct (bool_decide (p ∈ unwritable w)) eqn:Hw; simpl;
    rewrite embed_cover_art_eq; simpl; [by rewrite Hp, Hc, Hw|].
  rewrite lookup_insert_eq, lookup_insert_ne, Hc, Hw by done. simpl.
  by rewrite !insert_insert_eq.
Qed.

(** X5. Cover embedding never raises.  It returns [True] exactly when the
    audio file is MPEG audio, the cover can be read and the audio file can
    be written; the file then keeps its stream and every frame it had,
    except that its front cover is the one just read, with the MIME type of
    the cover's extension.  When it returns [False] no file has changed.
    Embedding the same cover again changes nothing. *)
Theorem embed_cover_art_spec (p c : string) (w : World) :
  (exists b, fst (embed_cover_art p c w) = Val b) /\
  (fst (embed_cover_art p c w) = Val true <->
   (exists s t0, files w !! p = Some (Mpeg s t0)) /\ is_Some (files w !! c) /\
   (p ∉ unwritable w)) /\
  (forall s t0 data,
      files w !! p = Some (Mpeg s t0) -> files w !! c = Some data -> p ∉ unwritable w ->
      files (snd (embed_cover_art p c w)) =
      <[p := Mpeg s (Some (<["APIC:Cover" := APIC 3 (mime_of c) 3 "Cover" data]>
                            (default ∅ t0)))]> (files w)) /\
  (fst (embed_cover_art p c w) = Val false -> files (snd (embed_cover_art p c w)) = files w) /\
  (c ≠ p ->
   files (snd (embed_cover_art p c (snd (embed_cover_art p c w))))
   = files (snd (embed_cover_art p c w))).
Proof.
  split; [apply embed_cover_art_returns|].
  split; [|split; [|split; [|apply embed_cover_art_again]]];
    rewrite embed_cover_art_eq;
    (destruct (files w !! p) as [[b|v|s t0]|] eqn:Hp; [by settle..| |by settle]);
    (destruct (files w !! c) as [data|] eqn:Hc; [|by settle]);
    (destruct (bool_decide (p ∈ unwritable w)) eqn:Hw;
     [apply bool_decide_eq_true in Hw | apply bool_decide_eq_false in Hw]); by settle.
Qed.

(** * Covers, and how the stages compose *)

Lemma plain_cover_exts ext : ext ∈ cover_exts -> plain_ext ext.
Proof.
  unfold cover_exts. rewrite !elem_of_cons, elem_of_nil.
  intros [->|[->|[->|[->|[]]]]]; (split; [reflexivity | simpl; lia]).
Qed.

Lemma append_assoc s1 s2 s3 : (s1 +:+ s2) +:+ s3 = s1 +:+ s2 +:+ s3.
Proof. induction s1 as [|c s1 IH]; [done|]. by rewrite !append_cons, IH. Qed.

Lemma suffix_cover_candidate b ext :
  ext ∈ cover_exts -> suffix (b +:+ "_cover" +:+ ext) = ext.
Proof.
  intros Hext. rewrite <- append_assoc. apply suffix_append.
  - by apply plain_cover_exts.
  - intros E. by apply append_eq_nil in E as [_ ?].
Qed.

(** X6. The cover of a matched unit is [<base>_cover<ext>] for one of the
    four cover extensions, whatever the base name, and it exists; the MIME
    type the embedding gives it is [image/png] for [.png], [image/webp] for
    [.webp] and [image/jpeg] for [.jpeg] and [.jpg]. *)
Theorem matched_cover_mime (w : World) :
  forall ts w' t c,
    find_triplets w = (Val ts, w') -> t ∈ ts -> cover t = Some c ->
    exists ext,
      ext ∈ cover_exts /\ c = base_name_of (tags_json t) +:+ "_cover" +:+ ext /\
      present (files w) c = true /\ suffix c = ext /\ mime_of c = mime_for_ext ext.
Proof.
  intros ts w' t c Hf Ht Hc. destruct (matched_unit _ _ _ _ Hf Ht) as [_ Hu].
  destruct (unit_for_Some _ _ _ Hu) as (_ & _ & Hcov).
  rewrite Hc in Hcov. symmetry in Hcov. apply find_some in Hcov as [Hin Hp].
  unfold cover_candidates in Hin. apply in_map_iff in Hin as (ext & <- & Hext).
  apply list_elem_of_In in Hext. exists ext.
  split; [done|]. split; [done|]. split; [done|].
  pose proof (suffix_cover_candidate (base_name_of (tags_json t)) ext Hext) as Hs.
  split; [done|]. unfold mime_of. rewrite Hs.
  unfold cover_exts in Hext. rewrite !elem_of_cons, elem_of_nil in Hext.
  by destruct Hext as [->|[->|[->|[->|[]]]]].
Qed.

Lemma matched_cover_mime_witness :
  exists ext, ext ∈ cover_exts /\
              "song_cover.png" = base_name_of (tags_json song_unit) +:+ "_cover" +:+ ext /\
              present (files album) "song_cover.png" = true /\
              suffix "song_cover.png" = ext /\ mime_of "song_cover.png" = mime_for_ext ext.
Proof.
  assert (Hf : find_triplets album = (Val [song_unit], snd (find_triplets album)))
    by (apply result_eq; vm_compute; reflexivity).
  apply (matched_cover_mime album _ _ song_unit "song_cover.png" Hf);
    [by apply list_elem_of_singleton | reflexivity].
Defined.

Section Composition.
Context `{Collab : Collaborators}.

Lemma add_all_cover fs d c data (t : ID3) :
  frames_for d = Some fs ->
  add_all fs (<["APIC:Cover" := cover_frame c data]> t)
  = <["APIC:Cover" := cover_frame c data]> (add_all fs t).
Proof.
  intros Hfs. apply map_eq. intros k.
  rewrite (frames_for_lookup _ _ _ _ Hfs).
  destruct (decide ("APIC:Cover" = k)) as [<-|Hne].
  - rewrite !lookup_insert_eq. unfold comment_key. simpl. by rewrite !andb_false_r.
  - rewrite !lookup_insert_ne by done. by rewrite (frames_for_lookup _ _ _ _ Hfs).
Qed.

(** X7. Tagging and cover embedding commute: for a cover that is not the
    audio file itself, the two orders return the same two results and
    leave the same files, also when one of the two fails. *)
Theorem tags_and_cover_commute (p c : string) (d : json) (w : World) :
  c ≠ p ->
  let tag_first := embed_cover_art p c (snd (apply_tags p d w)) in
  let cover_first := apply_tags p d (snd (embed_cover_art p c w)) in
  fst (apply_tags p d w) = fst cover_first /\
  fst (embed_cover_art p c w) = fst tag_first /\
  files (snd tag_first) = files (snd cover_first).
Proof.
  intros Hne tag_first cover_first. subst tag_first cover_first.
  rewrite (apply_tags_eq p d w), (embed_cover_art_eq p c w).
  destruct (files w !! p) as [[b|v|s t0]|] eqn:Hp; simpl;
    try (rewrite apply_tags_eq, embed_cover_art_eq; simpl; by rewrite Hp).
  destruct (frames_for d) as [fs|] eqn:Hfs; simpl;
    destruct (files w !! c) as [data|] eqn:Hc; simpl;
    destruct (bool_decide (p ∈ unwritable w)) eqn:Hw; simpl;
    rewrite apply_tags_eq, embed_cover_art_eq; simpl;
    rewrite ?lookup_insert_eq, ?(lookup_insert_ne _ p c) by done;
    rewrite ?Hp, ?Hc, ?Hfs, ?Hw; simpl; try done.
  rewrite !insert_insert_eq. repeat split. do 3 f_equal.
  symmetry. by eapply add_all_cover.
Qed.

End Composition.

Lemma tags_and_cover_commute_witness :
  files (snd (embed_cover_art "song.mp3" "song_cover.png"
                (snd (apply_tags (Collab := studio) "song.mp3" record_AB with_cover))))
  = files (snd (apply_tags (Collab := studio) "song.mp3" record_AB
                  (snd (embed_cover_art "song.mp3" "song_cover.png" with_cover)))).
Proof.
  apply (tags_and_cover_commute (Collab := studio) "song.mp3" "song_cover.png" record_AB
           with_cover).
  discriminate.
Defined.

(** * What a unit touches *)

Lemma sweep_spares_output t p w :
  tags_json t ≠ p -> cover t ≠ Some p -> files (sweep t p w) !! p = files w !! p.
Proof.
  intros Hj Hc. unfold sweep, try_unlink; simpl.
  destruct (String.eqb_spec (audio t) p) as [|Ha]; simpl;
    repeat match goal with
           | |- context [if ?b then _ else _] => destruct b; simpl
           | |- context [match cover t with _ => _ end] => destruct (cover t); simpl
           end;
    rewrite ?lookup_delete_ne by congruence; done.
Qed.

Lemma sweep_removes_own t p w q :
  files (sweep t p w) !! q = files w !! q \/
  (q ∈ cleanup_order t /\ files (sweep t p w) !! q = None).
Proof.
  destruct (decide (q ∈ cleanup_order t)) as [Hin|Hout];
    [|left; by apply sweep_other].
  destruct (files (sweep t p w) !! q) eqn:E; [left|by right].
  revert E. unfold sweep, try_unlink; simpl.
  repeat match goal with
         | |- context [if ?b then _ else _] => destruct b; simpl
         | |- context [match cover t with _ => _ end] => destruct (cover t); simpl
         end;
    rewrite ?lookup_delete; repeat case_decide; congruence.
Qed.

(** X8. The cleanup never raises, and of the directory it removes nothing
    but the unit's sidecar, cover and original audio; the tagged file is
    never removed, unless the unit names it as its sidecar or cover. *)
Theorem cleanup_spares_output (t : Triplet) (p : string) (w : World) :
  fst (cleanup t p w) = Val tt /\
  (forall q, files (snd (cleanup t p w)) !! q = files w !! q \/
             (q ∈ [tags_json t; audio t] ++ option_list (cover t) /\
              files (snd (cleanup t p w)) !! q = None)) /\
  (tags_json t ≠ p -> cover t ≠ Some p ->
   files (snd (cleanup t p w)) !! p = files w !! p).
Proof.
  rewrite cleanup_eq. cbn [fst snd]. split; [done|]. split.
  - intros q. destruct (sweep_removes_own t p w q) as [H|[Hin H]]; [by left|right].
    split; [|done]. unfold cleanup_order in Hin.
    rewrite elem_of_cons, elem_of_app, list_elem_of_singleton in Hin.
    rewrite elem_of_app, !elem_of_cons, elem_of_nil. tauto.
  - apply sweep_spares_output.
Qed.

Section UnitFrame.
Context `{Collab : Collaborators}.

Lemma normalize_path a w p w2 :
  normalize a w = (Val (Some p), w2) ->
  (p = a /\ w2 = w) \/
  (with_suffix a ".mp3" = Some p /\ p ≠ a /\
   exists c x, files w !! a = Some x /\ transcode x = Some c /\
               files w2 = <[p := c]> (files w) /\
               unwritable w2 = unwritable w /\ undeletable w2 = undeletable w).
Proof.
  rewrite normalize_eq.
  destruct (String.eqb_spec (lower (suffix a)) ".mp3") as [|Hs]; [intros [= <- <-]; by left|].
  destruct (with_suffix a ".mp3") as [out|] eqn:Hw; [|done].
  destruct (encoded w a out) as [c|] eqn:He; [|by destruct (failure_reported w a out)].
  intros [= <- <-]. right. split; [done|].
  assert (a ≠ "") by (intros ->; vm_compute in Hw; done).
  destruct (with_suffix_mp3 a) as (out' & Hw' & _ & _ & Hd); [done|].
  rewrite Hw in Hw'. injection Hw' as <-.
  split; [by apply Hd, lower_mp3_neq|].
  unfold encoded in He. destruct ffmpeg_installed; [|done].
  destruct (files w !! a) as [x|]; [|done].
  destruct (transcode x) as [c'|] eqn:Ht; [|done].
  destruct (bool_decide _); [done|]. injection He as <-. eauto 10.
Qed.

Lemma normalize_other a w q :
  with_suffix a ".mp3" ≠ Some q ->
  files (snd (normalize a w)) !! q = files w !! q.
Proof.
  intros Hq. rewrite normalize_eq. destruct (String.eqb _ _); [done|].
  destruct (with_suffix a ".mp3") as [out|]; [|done].
  destruct (encoded w a out); simpl; [rewrite lookup_insert_ne; [done|congruence]|].
  unfold spoiled. destruct (_ && _); [|done].
  destruct (files w !! a) as [c|]; [|done].
  destruct (transcode c); [done|]. destruct (leftover c); [|done].
  rewrite lookup_insert_ne; [done|congruence].
Qed.

Lemma apply_tags_other p d w q :
  q ≠ p -> files (snd (apply_tags p d w)) !! q = files w !! q.
Proof.
  intros Hq. rewrite apply_tags_eq.
  destruct (files w !! p) as [[| |s t0]|]; simpl; try done.
  destruct (frames_for d); simpl; [|done].
  destruct (bool_decide _); simpl; [done|]. by rewrite lookup_insert_ne.
Qed.

(** X9. A unit touches only its own files: the content of every file
    other than its sidecar, its audio, its cover and the [.mp3] sibling
    of its audio is the same after [process_triplet] as before, whatever
    the outcome. *)
Theorem process_triplet_frame (t : Triplet) (w : World) (q : string) :
  q ≠ tags_json t -> q ≠ audio t -> cover t ≠ Some q ->
  with_suffix (audio t) ".mp3" ≠ Some q ->
  files (snd (process_triplet t w)) !! q = files w !! q.
Proof.
  intros Hj Ha Hc Ho. rewrite process_triplet_eq.
  destruct (record_of _) as [d|]; [|done].
  pose proof (normalize_other (audio t) (emits [EvOpen (tags_json t)] w) q Ho) as Hn.
  destruct (normalize (audio t) _) as [[[p|]|e] w2] eqn:En; simpl in Hn; try done.
  assert (Hp : q ≠ p).
  { destruct (normalize_path _ _ _ _ En) as [[-> _]|[Hw _]]; congruence. }
  pose proof (apply_tags_other p d w2 q Hp) as Hat.
  destruct (apply_tags p d w2) as [[[]|e] w3]; simpl in *; try congruence.
  rewrite cleanup_eq. simpl. rewrite sweep_other.
  - rewrite after_embed_other by done. congruence.
  - unfold cleanup_order.
    rewrite not_elem_of_cons, not_elem_of_app, list_elem_of_singleton.
    split; [done|]. split; [|done].
    destruct (cover t) as [c|]; simpl; [|apply not_elem_of_nil].
    rewrite list_elem_of_singleton. congruence.
Qed.

(** X10. A unit that returns [False] has changed no file, except possibly
    the [.mp3] sibling of its audio.  The sibling is written only by the
    encoder: it holds the stream of a conversion that went through
    before tagging failed, or what a failing encoder left at its output.
    A unit already in MP3 leaves the directory exactly as it was, and
    when reading the sidecar fails nothing is called after it. *)
Theorem failed_unit_frame (t : Triplet) (w : World) :
  fst (process_triplet t w) = Val false ->
  (files (snd (process_triplet t w)) = files w \/
   exists out x c,
     lower (suffix (audio t)) ≠ ".mp3" /\
     with_suffix (audio t) ".mp3" = Some out /\ files w !! audio t = Some x /\
     (transcode x = Some c \/ (transcode x = None /\ leftover x = Some c)) /\
     files (snd (process_triplet t w)) = <[out := c]> (files w)) /\
  (lower (suffix (audio t)) = ".mp3" -> files (snd (process_triplet t w)) = files w) /\
  (fst (read_metadata (tags_json t) w) = Val None ->
   snd (process_triplet t w) = snd (read_metadata (tags_json t) w)).
Proof.
  rewrite process_triplet_eq, read_metadata_eq. cbn [fst snd].
  destruct (record_of _) as [d|]; [|by auto].
  intros Hfalse.
  assert (Htag : forall p w2,
             fst (match apply_tags p d w2 with
                  | (Val true, w3) => (Val true, snd (cleanup t p (after_embed t p w3)))
                  | (_, w3) => (Val false, w3)
                  end) = Val false ->
             files (snd (match apply_tags p d w2 with
                         | (Val true, w3) =>
                             (Val true, snd (cleanup t p (after_embed t p w3)))
                         | (_, w3) => (Val false, w3)
                         end)) = files w2).
  { intros p w2 Hf.
    destruct (apply_tags_frame any_event p d w2) as (_ & _ & Hsame); [done..|].
    destruct (apply_tags_returns p d w2) as [r Hr].
    destruct (apply_tags p d w2) as [[[]|e] w3]; simpl in *; try done. by apply Hsame. }
  rewrite normalize_eq in *.
  destruct (String.eqb_spec (lower (suffix (audio t))) ".mp3") as [Hs|Hs].
  { specialize (Htag _ _ Hfalse). split; [by left|]. by split. }
  split; [|by split].
  destruct (with_suffix (audio t) ".mp3") as [out|] eqn:Hout; [|done].
  destruct (encoded _ (audio t) out) as [c|] eqn:He.
  - specialize (Htag _ _ Hfalse). right. rewrite Htag. simpl.
    unfold encoded in He. simpl in He. destruct ffmpeg_installed; [|done].
    destruct (files w !! audio t) as [x|]; [|done].
    destruct (transcode x) as [c'|] eqn:Ht; [|done].
    destruct (bool_decide _); [done|]. injection He as <-. eauto 10.
  - destruct (failure_reported _ _ _); [|done]. simpl.
    unfold spoiled. simpl. destruct (_ && _); [|by left].
    destruct (files w !! audio t) as [x|]; [|by left].
    destruct (transcode x) eqn:Ht; [by left|].
    destruct (leftover x) as [part|] eqn:Hl; [|by left].
    right. eauto 10.
Qed.

(** X11. There is no rollback: when the conversion has gone through and
    tagging then fails, the unit returns [False], the encoder's output
    stays where it was written, and that is the only change; the
    original audio is as it was. *)
Theorem conversion_survives_tag_failure (t : Triplet) (w : World) d w1 out w2 w3 :
  read_metadata (tags_json t) w = (Val (Some d), w1) ->
  normalize (audio t) w1 = (Val (Some out), w2) ->
  out ≠ audio t ->
  apply_tags out d w2 = (Val false, w3) ->
  process_triplet t w = (Val false, w3) /\
  (exists x c, files w !! audio t = Some x /\ transcode x = Some c /\
               files w3 = <[out := c]> (files w)) /\
  files w3 !! audio t = files w !! audio t.
Proof.
  intros Hr Hn Hne Ha.
  rewrite read_metadata_eq in Hr. inversion Hr as [[Hd Hw1]]. subst w1.
  split; [by rewrite process_triplet_eq, Hd, Hn, Ha|].
  destruct (normalize_path _ _ _ _ Hn) as [[? _]|(_ & _ & c & x & Hx & Hc & Hfs & _)];
    [done|].
  destruct (apply_tags_frame any_event out d w2) as (_ & _ & Hsame); [done..|].
  rewrite Ha in Hsame. simpl in *. rewrite Hsame, Hfs by done.
  split; [eauto|]. by rewrite lookup_insert_ne.
Qed.

(** X12. What the finished file holds: after a unit has succeeded, its
    output is the file as tagging left it, with the front cover replaced
    by the unit's cover when the cover could be read, and unchanged
    otherwise; embedding and cleanup change nothing else in it. *)
Theorem finished_file_content (t : Triplet) (w : World) d w1 p w2 w3 :
  read_metadata (tags_json t) w = (Val (Some d), w1) ->
  normalize (audio t) w1 = (Val (Some p), w2) ->
  apply_tags p d w2 = (Val true, w3) ->
  tags_json t ≠ p -> cover t ≠ Some p ->
  exists s tg,
    files w3 !! p = Some (Mpeg s (Some tg)) /\
    files (snd (process_triplet t w)) !! p =
    Some (Mpeg s (Some (match cover t with
                        | Some c =>
                            match files w3 !! c with
                            | Some data =>
                                <["APIC:Cover" := APIC 3 (mime_of c) 3 "Cover" data]> tg
                            | None => tg
                            end
                        | None => tg
                        end))).
Proof.
  intros Hr Hn Ha Hj Hc.
  rewrite (process_triplet_success _ _ _ _ _ _ _ Hr Hn Ha). cbn [snd].
  rewrite cleanup_eq. cbn [snd]. rewrite sweep_spares_output by done.
  rewrite apply_tags_eq in Ha.
  destruct (files w2 !! p) as [[| |s t0]|] eqn:Hp; try done.
  destruct (frames_for d) as [fs|]; [|done].
  destruct (bool_decide (p ∈ unwritable w2)) eqn:Hw; [done|].
  injection Ha as <-. simpl.
  exists s, (add_all fs (default ∅ t0)). rewrite lookup_insert_eq. split; [done|].
  unfold after_embed. destruct (cover t) as [c|]; [|simpl; by rewrite lookup_insert_eq].
  assert (c ≠ p) by congruence.
  rewrite embed_cover_art_eq. simpl. rewrite lookup_insert_eq, lookup_insert_ne by done.
  destruct (files w2 !! c) as [data|]; simpl; [|by rewrite lookup_insert_eq].
  rewrite Hw. simpl. by rewrite lookup_insert_eq.
Qed.

End UnitFrame.

Lemma song_stages_bad_year :
  read_metadata (tags_json song_unit) bad_year
  = (Val (Some record_bad_year), snd (read_metadata (tags_json song_unit) bad_year)) /\
  normalize (Collab := studio) (audio song_unit) (snd (read_metadata (tags_json song_unit) bad_year))
  = (Val (Some "song.mp3"),
     snd (normalize (Collab := studio) (audio song_unit)
            (snd (read_metadata (tags_json song_unit) bad_year)))) /\
  apply_tags (Collab := studio) "song.mp3" record_bad_year
    (snd (normalize (Collab := studio) (audio song_unit)
            (snd (read_metadata (tags_json song_unit) bad_year))))
  = (Val false,
     snd (apply_tags (Collab := studio) "song.mp3" record_bad_year
            (snd (normalize (Collab := studio) (audio song_unit)
                    (snd (read_metadata (tags_json song_unit) bad_year)))))).
Proof. repeat apply conj; apply result_eq; vm_compute; reflexivity. Qed.

Lemma process_triplet_frame_witness :
  files (snd (process_triplet (Collab := studio) song_unit bad_year)) !! "other.txt"
  = files bad_year !! "other.txt".
Proof.
  apply (process_triplet_frame (Collab := studio) song_unit bad_year "other.txt");
    [discriminate | discriminate | discriminate | vm_compute; discriminate].
Defined.

Lemma failed_unit_frame_witness :
  (files (snd (process_triplet (Collab := brittle) song_unit album)) = files album \/
   exists out x c,
     lower (suffix (audio song_unit)) ≠ ".mp3" /\
     with_suffix (audio song_unit) ".mp3" = Some out /\
     files album !! audio song_unit = Some x /\
     (transcode (Collaborators := brittle) x = Some c \/
      (transcode (Collaborators := brittle) x = None /\
       leftover (Collaborators := brittle) x = Some c)) /\
     files (snd (process_triplet (Collab := brittle) song_unit album))
     = <[out := c]> (files album)) /\
  snd (process_triplet (Collab := studio) song_unit empty_sidecar)
  = snd (read_metadata (tags_json song_unit) empty_sidecar).
Proof.
  split.
  - apply (proj1 (failed_unit_frame (Collab := brittle) song_unit album
                    ltac:(vm_compute; reflexivity))).
  - apply (proj2 (proj2 (failed_unit_frame (Collab := studio) song_unit empty_sidecar
                           ltac:(vm_compute; reflexivity)))).
    vm_compute. reflexivity.
Defined.

Lemma conversion_survives_tag_failure_witness :
  fst (process_triplet (Collab := studio) song_unit bad_year) = Val false /\
  exists x c, files bad_year !! audio song_unit = Some x /\
              transcode (Collaborators := studio) x = Some c /\
              files (snd (process_triplet (Collab := studio) song_unit bad_year))
              = <["song.mp3" := c]> (files bad_year).
Proof.
  destruct song_stages_bad_year as (Hr & Hn & Ha).
  destruct (conversion_survives_tag_failure (Collab := studio) song_unit bad_year
              _ _ _ _ _ Hr Hn ltac:(discriminate) Ha) as (Hp & (x & c & Hx & Hc & Hfs) & _).
  rewrite Hp. split; [reflexivity|]. exists x, c. by repeat split.
Defined.

Lemma finished_file_content_witness :
  exists s tg,
    files (song_tagged album) !! "song.mp3" = Some (Mpeg s (Some tg)) /\
    files (snd (process_triplet (Collab := studio) song_unit album)) !! "song.mp3" =
    Some (Mpeg s (Some (match cover song_unit with
                        | Some c =>
                            match files (song_tagged album) !! c with
                            | Some data =>
                                <["APIC:Cover" := APIC 3 (mime_of c) 3 "Cover" data]> tg
                            | None => tg
                            end
                        | None => tg
                        end))).
Proof.
  destruct (song_stages album) as (Hr & Hn & Ha); [vm_compute; reflexivity..|].
  apply (finished_file_content (Collab := studio) song_unit album _ _ _ _ _ Hr Hn Ha);
    discriminate.
Defined.

(** * The matcher and the batch, continued *)

Lemma prefix_empty s : String.prefix "" s = true.
Proof. by destruct s. Qed.

Lemma prefix_tags_cons c s :
  String.prefix "_tags" (String c s +:+ "_tags") = String.prefix "_tags" (String c s).
Proof.
  destruct s as [|c1 [|c2 [|c3 [|c4 s']]]];
    rewrite ?append_cons, ?append_nil_l; cbn [String.prefix];
    repeat (match goal with
            | |- context [ascii_dec ?a ?b] => destruct (ascii_dec a b); subst; try done
            end);
    by rewrite !prefix_empty.
Qed.

Lemma replace_tags_suffix b : no_tags b = true -> replace "_tags" "" (b +:+ "_tags") = b.
Proof.
  unfold replace. induction b as [|c b IH]; [by intros _; vm_compute|].
  cbn [no_tags]. intros H. apply andb_true_iff in H as [Hp Hb].
  apply negb_true_iff in Hp. rewrite <- prefix_tags_cons in Hp.
  rewrite append_cons in *. cbn [replace_from]. rewrite Hp. by rewrite IH.
Qed.

Lemma stem_sidecar b : stem (b +:+ "_tags.json") = b +:+ "_tags".
Proof.
  change "_tags.json" with ("_tags" +:+ ".json"). rewrite <- append_assoc.
  unfold stem. rewrite split_ext_append by (split; [reflexivity | simpl; lia]).
  destruct (String.eqb_spec (b +:+ "_tags") "") as [E|_]; [|done].
  by apply append_eq_nil in E as [_ ?].
Qed.

(** X13. A base name in which [_tags] does not occur is recovered from its
    sidecar's name: [<base>_tags.json] has the base name [<base>], so that
    its audio candidates are [<base>.m4a], [<base>.mp4], [<base>.mp3] and
    [<base>.flac]. *)
Theorem base_name_round_trip (b : string) :
  no_tags b = true ->
  ends_with "_tags.json" (b +:+ "_tags.json") = true /\
  base_name_of (b +:+ "_tags.json") = b /\
  audio_candidates (base_name_of (b +:+ "_tags.json"))
  = [b +:+ ".m4a"; b +:+ ".mp4"; b +:+ ".mp3"; b +:+ ".flac"].
Proof.
  intros Hb.
  assert (Hbase : base_name_of (b +:+ "_tags.json") = b).
  { unfold base_name_of. rewrite stem_sidecar. by apply replace_tags_suffix. }
  split; [|split; [done|by rewrite Hbase]].
  clear. induction b as [|c b IH]; [reflexivity|].
  rewrite append_cons. cbn [ends_with]. rewrite IH. apply orb_true_r.
Qed.

Lemma base_name_round_trip_witness :
  base_name_of ("my.song (live)" +:+ "_tags.json") = "my.song (live)".
Proof.
  apply (base_name_round_trip "my.song (live)"). vm_compute. reflexivity.
Defined.

Lemma probed_length fs l : (length (probed fs l) <= length l)%nat.
Proof.
  induction l as [|c l IH]; simpl; [lia|]. destruct (present fs c); simpl; lia.
Qed.

Lemma probed_elem fs l q : q ∈ probed fs l -> q ∈ l.
Proof.
  induction l as [|c l IH]; simpl; [done|].
  rewrite !elem_of_cons. intros [->|H]; [by left|].
  destruct (present fs c); [by apply elem_of_nil in H|]. right. by apply IH.
Qed.

Lemma unit_probes_length (fs : gmap string Content) (j : string) :
  (length (unit_probes fs j) <= 8)%nat.
Proof.
  unfold unit_probes. rewrite length_app.
  pose proof (probed_length fs (audio_candidates (base_name_of j))) as Ha.
  pose proof (probed_length fs (cover_candidates (base_name_of j))) as Hc.
  assert (La : length (audio_candidates (base_name_of j)) = 4%nat) by reflexivity.
  assert (Lc : length (cover_candidates (base_name_of j)) = 4%nat) by reflexivity.
  destruct (List.find (present fs) (audio_candidates (base_name_of j)));
    cbn [length]; lia.
Qed.

(** X14. Matching only looks: the calls it makes are existence probes, at
    most eight for each sidecar, each for an audio or a cover candidate of
    a sidecar's base name; it opens, writes, removes and runs nothing. *)
Theorem find_triplets_only_probes (w : World) :
  exists probes,
    snd (find_triplets w) = emits (map EvExists probes) w /\
    (length probes <= 8 * length (glob_tags w))%nat /\
    (forall q, q ∈ probes ->
       exists j, j ∈ glob_tags w /\
                 (q ∈ audio_candidates (base_name_of j) \/
                  q ∈ cover_candidates (base_name_of j))).
Proof.
  rewrite find_triplets_eq. cbn [snd]. eexists. split; [reflexivity|].
  generalize (glob_tags w) as js. intros js. split.
  - induction js as [|j js IH]; [simpl; lia|].
    change (length (unit_probes (files w) j ++ concat (map (unit_probes (files w)) js))
            <= 8 * length (j :: js))%nat.
    rewrite length_app. pose proof (unit_probes_length (files w) j).
    cbn [length]. lia.
  - intros q Hq. apply list_elem_of_In, in_concat in Hq as (l & Hl & Hq).
    apply in_map_iff in Hl as (j & <- & Hj).
    apply list_elem_of_In in Hq, Hj. exists j. split; [done|].
    unfold unit_probes in Hq. apply elem_of_app in Hq as [Hq|Hq].
    + left. by eapply probed_elem.
    + destruct (List.find _ _); [right; by eapply probed_elem | by apply elem_of_nil in Hq].
Qed.

Section BatchTrace.
Context `{Collab : Collaborators}.

Lemma process_triplet_opens t w :
  exists evs, trace (snd (process_triplet t w)) = trace w ++ EvOpen (tags_json t) :: evs.
Proof.
  assert (Hx : forall w', extends_by any_event (emits [EvOpen (tags_json t)] w) w' ->
               exists evs, trace w' = trace w ++ EvOpen (tags_json t) :: evs).
  { intros w' (evs & -> & _). exists evs. simpl. by rewrite <- app_assoc. }
  rewrite process_triplet_eq.
  destruct (record_of _) as [d|]; [|apply Hx, extends_by_refl].
  destruct (normalize_frame any_event (audio t) (emits [EvOpen (tags_json t)] w))
    as [Hn _]; [done|].
  destruct (normalize (audio t) _) as [[[p|]|e] w2]; simpl in Hn; try by apply Hx.
  destruct (apply_tags_frame any_event p d w2) as (Ha & _); [done..|].
  apply Hx. eapply extends_by_trans; [exact Hn|].
  destruct (apply_tags p d w2) as [[[]|e] w3]; simpl in *; try done.
  eapply extends_by_trans; [exact Ha|].
  eapply extends_by_trans; [by apply (after_embed_extends any_event t p w3)|].
  rewrite cleanup_eq. simpl. by apply sweep_extends.
Qed.

Lemma process_all_trace ts :
  forall n w, exists evs, trace (snd (process_all ts n w)) = trace w ++ evs.
Proof.
  induction ts as [|t ts IH]; intros n w; simpl; [exists []; by rewrite app_nil_r|].
  unfold bind. destruct (process_triplet_opens t w) as (e1 & H1).
  destruct (process_triplet t w) as [[b|e] w1]; simpl in *; [|eauto].
  destruct (IH (if b then S n else n) w1) as (e2 & H2).
  rewrite H2, H1, <- app_assoc. eauto.
Qed.

Lemma process_all_opens ts :
  forall n w k t,
    fst (process_all ts n w) = Val k -> t ∈ ts ->
    EvOpen (tags_json t) ∈ trace (snd (process_all ts n w)).
Proof.
  induction ts as [|t0 ts IH]; intros n w k t Hk Hin; [by apply elem_of_nil in Hin|].
  revert Hk. simpl. unfold bind.
  destruct (process_triplet_opens t0 w) as (e1 & H1).
  destruct (process_triplet t0 w) as [[b|e] w1]; simpl in *; [|done].
  intros Hk. apply elem_of_cons in Hin as [->|Hin]; [|by eapply IH].
  destruct (process_all_trace ts (if b then S n else n) w1) as (e2 & H2).
  rewrite H2, H1. rewrite elem_of_app, elem_of_app, elem_of_cons. auto.
Qed.

(** When every error output of the encoder decodes, a unit returns. *)
Lemma process_triplet_returns t w :
  (forall cmd c wr, utf8_decodes (ffmpeg_stderr cmd c wr) = true) ->
  audio t ≠ "" -> exists b, fst (process_triplet t w) = Val b.
Proof.
  intros Hutf Hne. destruct (process_triplet_outcome t w Hne) as [H|H]; [done|].
  exfalso. revert H. rewrite process_triplet_eq.
  destruct (record_of _) as [d|]; [|done].
  rewrite normalize_eq. destruct (String.eqb _ _).
  { by destruct (apply_tags _ _ _) as [[[]|e] w3]. }
  destruct (with_suffix (audio t) ".mp3") as [out|]; [|done].
  destruct (encoded _ _ _).
  { by destruct (apply_tags _ _ _) as [[[]|e] w3]. }
  unfold failure_reported. by rewrite Hutf, orb_true_r.
Qed.

Lemma process_all_returns ts :
  (forall cmd c wr, utf8_decodes (ffmpeg_stderr cmd c wr) = true) ->
  Forall (fun t => audio t ≠ "") ts ->
  forall n w, exists k, fst (process_all ts n w) = Val k.
Proof.
  intros Hutf. induction 1 as [|t ts Ht _ IH]; intros n w; simpl; [by exists n|].
  unfold bind. destruct (process_triplet_returns t w Hutf Ht) as [b Hb].
  destruct (process_triplet t w) as [r w1]. simpl in Hb. subst r. apply IH.
Qed.

(** The outcomes of a run on a directory. *)
Lemma main_outcome w :
  target w = Directory ->
  exists ts w1,
    find_triplets w = (Val ts, w1) /\
    (Forall (fun t => audio t ≠ "") ts) /\
    main w = match ts with
             | [] => (Exc (SystemExit 0), w1)
             | _ => match process_all ts 0 w1 with
                    | (Val k, w') => (Val (k, length ts), w')
                    | (Exc e, w') => (Exc e, w')
                    end
             end.
Proof.
  intros Ht.
  assert (Hf : exists ts w1, find_triplets w = (Val ts, w1))
    by (rewrite find_triplets_eq; eauto).
  destruct Hf as (ts & w1 & Hf). exists ts, w1. split; [done|]. split.
  { apply Forall_forall. intros t Hin. by eapply matched_audio_nonempty. }
  unfold main. rewrite Ht. unfold bind. rewrite Hf.
  destruct ts as [|t0 ts']; [done|].
  by destruct (process_all (t0 :: ts') 0 w1) as [[k|e] w'].
Qed.

(** X15. A run on a directory ends in one of three ways: with
    [sys.exit(0)] when no unit was matched, with the tally of successes
    out of the number of units, or with the [UnicodeDecodeError] that a
    conversion lets through.  In a run that ends with the tally every
    matched unit was attempted: the sidecar of each was opened, also
    when units before it have failed. *)
Theorem main_attempts_every_unit (w : World) :
  target w = Directory ->
  exists ts w1,
    find_triplets w = (Val ts, w1) /\
    ((ts = [] /\ fst (main w) = Exc (SystemExit 0)) \/
     (exists k, fst (main w) = Val (k, length ts) /\ (k <= length ts)%nat) \/
     fst (main w) = Exc UnicodeDecodeError) /\
    (forall r, fst (main w) = Val r ->
               forall t, t ∈ ts -> EvOpen (tags_json t) ∈ trace (snd (main w))).
Proof.
  intros Ht. destruct (main_outcome w Ht) as (ts & w1 & Hf & Hall & Hm).
  exists ts, w1. split; [done|]. rewrite Hm.
  destruct ts as [|t0 ts']; [split; [by left | done]|].
  pose proof (process_all_outcome _ Hall 0%nat w1) as Hout.
  pose proof (process_all_opens (t0 :: ts') 0%nat w1) as Ho.
  destruct (process_all (t0 :: ts') 0 w1) as [[k|e] w']; simpl in *.
  - split.
    + right; left. exists k. split; [done|].
      destruct Hout as [(k0 & [= <-] & Hle)|?]; [lia|done].
    + intros r _ t Hin. by eapply Ho.
  - split; [|done]. right; right.
    destruct Hout as [(k0 & ? & _)|Hout]; [done|congruence].
Qed.

(** X16. The exit status is 0 or 1.  It is 1 exactly when the directory
    argument is missing or is not a directory, and then [main] stops
    before anything is scanned, or when a conversion has let a
    [UnicodeDecodeError] through.  With an encoder whose error output
    always decodes the latter does not happen: the status is then 0 for
    every directory, whatever the number of units that failed. *)
Theorem exit_status_cases (w : World) :
  (exit_status w = 0 \/ exit_status w = 1) /\
  (exit_status w = 1 <->
   target w ≠ Directory \/ fst (main w) = Exc UnicodeDecodeError) /\
  (target w ≠ Directory -> main w = (Exc (SystemExit 1), w)) /\
  ((forall cmd c wr, utf8_decodes (ffmpeg_stderr cmd c wr) = true) ->
   (exit_status w = 1 <-> target w ≠ Directory) /\
   fst (main w) ≠ Exc UnicodeDecodeError).
Proof.
  assert (Hd : target w = Directory \/ target w ≠ Directory)
    by (destruct (target w); auto; right; discriminate).
  destruct Hd as [Ht|Ht].
  - destruct (main_outcome w Ht) as (ts & w1 & Hf & Hall & Hm).
    assert (Hcases : (fst (main w) = Exc (SystemExit 0) \/
                      exists r, fst (main w) = Val r) \/
                     fst (main w) = Exc UnicodeDecodeError).
    { rewrite Hm. destruct ts as [|t0 ts']; [by left; left|].
      pose proof (process_all_outcome _ Hall 0%nat w1) as Hout.
      destruct (process_all (t0 :: ts') 0 w1) as [[k|e] w']; simpl in *; [eauto|].
      destruct Hout as [(k0 & ? & _)|Hout]; [done|]. right. congruence. }
    assert (Hutf : (forall cmd c wr, utf8_decodes (ffmpeg_stderr cmd c wr) = true) ->
                   fst (main w) ≠ Exc UnicodeDecodeError).
    { intros Hutf. rewrite Hm. destruct ts as [|t0 ts']; [done|].
      destruct (process_all_returns _ Hutf Hall 0%nat w1) as [k Hk].
      by destruct (process_all (t0 :: ts') 0 w1) as [[k'|e] w']. }
    unfold exit_status.
    destruct Hcases as [[Hc|[r Hc]]|Hc]; rewrite Hc in *;
      (split; [auto|]); (split; [split; [try done; auto | intros [?|?]; done]|]);
      (split; [done|]); intros Hu; specialize (Hutf Hu); split; try done;
      split; done.
  - assert (Hm : main w = (Exc (SystemExit 1), w)) by (unfold main; by destruct (target w)).
    unfold exit_status. rewrite Hm. simpl.
    split; [auto|]. split; [split; auto|]. split; [done|].
    intros _. split; [done|done].
Qed.

End BatchTrace.

Lemma main_attempts_every_unit_witness :
  fst (find_triplets mixed_batch)
  = Val [mkTriplet "bad.mp3" "bad_tags.json" None; mkTriplet "hit.mp3" "hit_tags.json" None] /\
  fst (process_triplet (Collab := studio) (mkTriplet "bad.mp3" "bad_tags.json" None)
         (snd (find_triplets mixed_batch))) = Val false /\
  fst (main (Collab := studio) mixed_batch) = Val (1%nat, 2%nat) /\
  EvOpen "hit_tags.json" ∈ trace (snd (main (Collab := studio) mixed_batch)).
Proof.
  assert (Hts : fst (find_triplets mixed_batch)
                = Val [mkTriplet "bad.mp3" "bad_tags.json" None;
                       mkTriplet "hit.mp3" "hit_tags.json" None])
    by (vm_compute; reflexivity).
  assert (Hr : fst (main (Collab := studio) mixed_batch) = Val (1%nat, 2%nat))
    by (vm_compute; reflexivity).
  split; [exact Hts|]. split; [vm_compute; reflexivity|]. split; [exact Hr|].
  destruct (main_attempts_every_unit (Collab := studio) mixed_batch eq_refl)
    as (ts & w1 & Hf & _ & Hall).
  apply (Hall _ Hr (mkTriplet "hit.mp3" "hit_tags.json" None)).
  rewrite Hf in Hts. simpl in Hts. injection Hts as ->.
  apply elem_of_cons. right. by apply elem_of_cons; left.
Defined.
